(** * go-notes: a command-line note manager over a SQLite file

    A shallow embedding of the storage layer (package [sqlite]), of the
    command dispatcher (package [cli]) and of [main], with the properties
    of the specification stated and settled against it.

    Conventions of the embedding.
    - A Go [string] is a sequence of bytes: Rocq's [string]; [len] is the
      number of bytes.
    - A Go [int] is a 64-bit integer, carried as [Z].
    - A Go [error] is a value of the type [error] below; a function that
      returns [(T, error)] returns a [result T].
    - The database file is the list of the rows of table [notes], kept in
      the order of their [note_id] (the order in which SQLite scans it).
      The statements the program prepares are given the meaning SQLite
      gives them; each definition quotes its statement.
    - A timestamp is the number of seconds since the epoch: SQLite's
      [CURRENT_TIMESTAMP] is the text [YYYY-MM-DD HH:MM:SS], one value for
      a whole statement.
    - The file can be read and written: failures of the disk itself are
      outside the model.
    - The command line is read as urfave/cli v1.22 and Go's package [flag]
      read it: the arguments after the name of the command go through the
      flag parsing of the library before the command sees them. *)

From Stdlib Require Import ZArith List String Ascii Bool Lia.
From Stdlib Require Import DecimalString DecimalPos Sorted.
Import ListNotations.

Local Open Scope string_scope.
Local Open Scope list_scope.
Local Open Scope Z_scope.

(** Go's [+] on strings. *)
Infix "+++" := String.append (right associativity, at level 60).

(** ** Go values *)

(** [len(s)] of a Go string: its number of bytes. *)
Definition len (s : string) : Z := Z.of_nat (String.length s).

(** The value of a byte. *)
Definition byte_val (a : ascii) : Z := Z.of_N (N_of_ascii a).

(** The bytes of a string. *)
Fixpoint bytes (s : string) : list Z :=
  match s with
  | EmptyString => []
  | String a s' => byte_val a :: bytes s'
  end.

Definition MaxInt32 : Z := 2147483647.
Definition MaxInt64 : Z := 9223372036854775807.

(** [%d] of fmt: the decimal form of an integer. *)
Definition itoa (z : Z) : string := NilZero.string_of_int (Z.to_int z).

(** The two ways [strconv.Atoi] fails. *)
Inductive AtoiFailure := ErrSyntax | ErrRange.

(** Go errors. [Error] below is the method [Error() string]. *)
Inductive error :=
| invalidNum                         (* sqlite: errors.New("invalid number") *)
| invalidParamLength                 (* sqlite: errors.New("invalid param length") *)
| ErrNoRows                          (* database/sql: sql.ErrNoRows *)
| SQLITE_FULL                        (* go-sqlite3: no rowid left for an INSERT *)
| NumError (num : string) (f : AtoiFailure)   (* strconv: *NumError of Atoi *)
| ErrorNew (msg : string)            (* errors.New / fmt.Errorf without verb *)
| Errorf (prefix : string) (e : error) (suffix : string).
                                     (* fmt.Errorf(prefix + "%w" or "%v" + suffix, e) *)

(** [strconv.Quote], with which [%q] of fmt and [*NumError] write a string:
    between double quotes, with a backslash before a double quote and before
    a backslash, and with Go's escapes for the control characters. A byte
    above 0x7f is copied, as Go copies the bytes of a printable character
    in UTF-8. *)
Definition backslash : ascii := "092"%char.
Definition dquote : ascii := "034"%char.

(** [lowerhex[n]]. *)
Definition lowerhex (n : Z) : ascii :=
  match String.get (Z.to_nat n) "0123456789abcdef" with
  | Some a => a
  | None => "0"%char
  end.

Definition escape (c : ascii) (rest : string) : string :=
  String backslash (String c rest).

(** [appendEscapedRune] on a byte. *)
Definition appendEscaped (a : ascii) (rest : string) : string :=
  let b := byte_val a in
  if (b =? 34) || (b =? 92) then escape a rest
  else if ((32 <=? b) && (b <=? 126)) || (128 <=? b) then String a rest
  else if b =? 7 then escape "a" rest
  else if b =? 8 then escape "b" rest
  else if b =? 12 then escape "f" rest
  else if b =? 10 then escape "n" rest
  else if b =? 13 then escape "r" rest
  else if b =? 9 then escape "t" rest
  else if b =? 11 then escape "v" rest
  else escape "x" (String (lowerhex (Z.shiftr b 4))
                     (String (lowerhex (Z.land b 15)) rest)).

Fixpoint quoted (s : string) : string :=
  match s with
  | EmptyString => String dquote EmptyString
  | String a s' => appendEscaped a (quoted s')
  end.

Definition quote (s : string) : string := String dquote (quoted s).

Fixpoint Error (e : error) : string :=
  match e with
  | invalidNum => "invalid number"
  | invalidParamLength => "invalid param length"
  | ErrNoRows => "sql: no rows in result set"
  | SQLITE_FULL => "database or disk is full"
  | NumError num ErrSyntax =>
      "strconv.Atoi: parsing " +++ quote num +++ ": invalid syntax"
  | NumError num ErrRange =>
      "strconv.Atoi: parsing " +++ quote num +++ ": value out of range"
  | ErrorNew msg => msg
  | Errorf prefix e' suffix => prefix +++ Error e' +++ suffix
  end.

(** A Go result [(T, error)]. *)
Inductive result (T : Type) :=
| Ok (v : T)
| Err (e : error).
Arguments Ok {T} v.
Arguments Err {T} e.

(** The error kinds of the specification. *)
Definition InvalidParameter (e : error) : Prop :=
  e = invalidNum \/ e = invalidParamLength.
Definition NotFound (e : error) : Prop := e = ErrNoRows.

(** ** package entities *)

Module entities.

(** [type Note struct]; the two [time.Time] fields hold seconds. *)
Record Note := mkNote {
  ID : Z;
  Title : string;
  Content : string;
  CreatedAt : Z;
  LastEditedAt : Z
}.

End entities.
Import entities.

(** ** SQLite's LIKE

    [title LIKE ?] calls [likeFunc] of SQLite with the default settings of
    go-sqlite3: no ESCAPE character, letter case ignored for ASCII only.
    Both operands are read as zero-terminated UTF-8 text. *)

Module sqlite3.

Definition SQLITE_MAX_LIKE_PATTERN_LENGTH : Z := 50000.

(** The text a zero-terminated read sees: the bytes before the first NUL. *)
Fixpoint cstring (b : list Z) : list Z :=
  match b with
  | [] => []
  | x :: b' => if x =? 0 then [] else x :: cstring b'
  end.

(** [sqlite3Utf8Trans1]: the payload bits of a lead byte, by [lead - 0xC0]. *)
Definition sqlite3Utf8Trans1 : list Z :=
  [ 0x00; 0x01; 0x02; 0x03; 0x04; 0x05; 0x06; 0x07;
    0x08; 0x09; 0x0a; 0x0b; 0x0c; 0x0d; 0x0e; 0x0f;
    0x10; 0x11; 0x12; 0x13; 0x14; 0x15; 0x16; 0x17;
    0x18; 0x19; 0x1a; 0x1b; 0x1c; 0x1d; 0x1e; 0x1f;
    0x00; 0x01; 0x02; 0x03; 0x04; 0x05; 0x06; 0x07;
    0x08; 0x09; 0x0a; 0x0b; 0x0c; 0x0d; 0x0e; 0x0f;
    0x00; 0x01; 0x02; 0x03; 0x04; 0x05; 0x06; 0x07;
    0x00; 0x01; 0x02; 0x03; 0x00; 0x01; 0x00; 0x00 ].

(** A continuation byte: [(x & 0xc0) == 0x80]. *)
Definition is_continuation (x : Z) : bool := Z.land x 0xc0 =? 0x80.

(** The loop of [sqlite3Utf8Read] over the continuation bytes:
    [c = (c<<6) + (0x3f & byte)] on a 32-bit unsigned. *)
Fixpoint utf8_continue (c : Z) (b : list Z) : Z * list Z :=
  match b with
  | x :: b' =>
      if is_continuation x
      then utf8_continue ((Z.shiftl c 6 + Z.land 0x3f x) mod 2 ^ 32) b'
      else (c, b)
  | [] => (c, [])
  end.

(** [Utf8Read]: one character off the front of a text whose first byte is
    [x]; the character and the bytes left. *)
Definition sqlite3Utf8Read (x : Z) (b : list Z) : Z * list Z :=
  if x <? 0xc0 then (x, b)
  else
    let '(c, rest) := utf8_continue (nth (Z.to_nat (x - 0xc0)) sqlite3Utf8Trans1 0) b in
    if (c <? 0x80)
       || (Z.land c 0xFFFFF800 =? 0xD800)
       || (Z.land c 0xFFFFFFFE =? 0xFFFE)
    then (0xFFFD, rest) else (c, rest).

(** The characters of a text, read one after the other; a read takes at
    least one byte, so [fuel] as large as the text reads all of it. *)
Fixpoint utf8_chars_upto (fuel : nat) (b : list Z) : list Z :=
  match fuel, b with
  | S fuel', x :: b' =>
      let '(c, rest) := sqlite3Utf8Read x b' in c :: utf8_chars_upto fuel' rest
  | _, _ => []
  end.

Definition utf8_chars (b : list Z) : list Z := utf8_chars_upto (List.length b) b.

(** [sqlite3Tolower]: ASCII capitals to small letters. *)
Definition sqlite3Tolower (c : Z) : Z :=
  if (65 <=? c) && (c <=? 90) then c + 32 else c.

Definition matchAll : Z := 37.   (* '%' *)
Definition matchOne : Z := 95.   (* '_' *)

(** Two characters that LIKE takes for equal. *)
Definition char_eq (c c2 : Z) : bool :=
  (c =? c2)
  || ((sqlite3Tolower c =? sqlite3Tolower c2) && (c <? 0x80) && (c2 <? 0x80)).

(** [patternCompare] for LIKE, on the characters of pattern and text:
    ['%'] stands for any run of characters, ['_'] for one character, any
    other character for itself or, in ASCII, its other letter case. *)
Fixpoint patternCompare (p : list Z) : list Z -> bool :=
  match p with
  | [] => fun s => match s with [] => true | _ :: _ => false end
  | c :: p' =>
      if c =? matchAll then
        fix star (s : list Z) : bool :=
          patternCompare p' s
          || match s with [] => false | _ :: s' => star s' end
      else if c =? matchOne then
        fun s => match s with [] => false | _ :: s' => patternCompare p' s' end
      else
        fun s =>
          match s with
          | [] => false
          | c2 :: s' => char_eq c c2 && patternCompare p' s'
          end
  end.

(** [likeFunc]: [text LIKE pattern]. A pattern of more than
    [SQLITE_MAX_LIKE_PATTERN_LENGTH] bytes is the error
    "LIKE or GLOB pattern too complex", here [None]. *)
Definition like (pattern text : string) : option bool :=
  if len pattern >? SQLITE_MAX_LIKE_PATTERN_LENGTH then None
  else Some (patternCompare (utf8_chars (cstring (bytes pattern)))
                            (utf8_chars (cstring (bytes text)))).

End sqlite3.

(** ** package sqlite *)

Module sqlite.

(** *** validateSQLParam *)

(** A value passed through [...interface{}]: the callers pass ints and
    strings only. *)
Inductive param :=
| IntParam (v : Z)
| StringParam (v : string).

Definition maxStringLength : Z := 256000.

(** [validateSQLParam]: the parameters are visited in order and the first
    one out of bounds decides the error. [None] is Go's [nil]. *)
Fixpoint validateSQLParam (params : list param) : option error :=
  match params with
  | [] => None
  | IntParam v :: rest =>
      if (v <? 1) || (v >? MaxInt32) then Some invalidNum
      else validateSQLParam rest
  | StringParam v :: rest =>
      if (len v <? 1) || (len v >? maxStringLength) then Some invalidParamLength
      else validateSQLParam rest
  end.

(** *** The table and its statements *)

(** Table [notes], rows in [note_id] order. *)
Definition table := list Note.

(** What a statement takes from outside the database: the clock, read once
    per statement by [CURRENT_TIMESTAMP], and the values that
    [sqlite3_randomness] hands to an INSERT that looks for a free rowid. *)
Record Env := mkEnv {
  now : Z;
  randomness : nat -> Z
}.

(** [New] on a path with no file: the table is created empty, with the
    trigger [update_last_edited_at] on it. *)
Definition New : table := [].

(** The largest [note_id] in use; [None] on an empty table. *)
Fixpoint max_rowid (t : table) : option Z :=
  match t with
  | [] => None
  | r :: t' =>
      match max_rowid t' with
      | None => Some (ID r)
      | Some m => Some (Z.max (ID r) m)
      end
  end.

Definition rowid_in_use (id : Z) (t : table) : bool :=
  existsb (fun r => ID r =? id) t.

(** The search for a free rowid when the largest one is taken: up to
    [tries] random candidates, each made positive as SQLite does
    ([v &= MAX_ROWID>>1; v++]); the first one not in use wins. *)
Fixpoint random_rowid (rnd : nat -> Z) (t : table) (k tries : nat) : option Z :=
  match tries with
  | O => None
  | S tries' =>
      let v := Z.land (rnd k) (Z.shiftr MaxInt64 1) + 1 in
      if rowid_in_use v t then random_rowid rnd t (S k) tries' else Some v
  end.

(** The rowid of a row inserted without one ([note_id INTEGER PRIMARY KEY],
    no AUTOINCREMENT): 1 on an empty table, else one more than the largest
    in use; when that is the largest 64-bit integer, a random free one, and
    SQLITE_FULL after 100 failed candidates. *)
Definition new_rowid (e : Env) (t : table) : option Z :=
  match max_rowid t with
  | None => Some 1
  | Some m =>
      if m <? MaxInt64 then Some (m + 1)
      else random_rowid (randomness e) t 0 100
  end.

(** A row enters the table at the place of its rowid. *)
Fixpoint insert_row (n : Note) (t : table) : table :=
  match t with
  | [] => [n]
  | r :: t' => if ID n <? ID r then n :: t else r :: insert_row n t'
  end.

(** [SELECT * FROM notes WHERE note_id = ?], first row ([QueryRow]). *)
Definition select_by_id (id : Z) (t : table) : option Note :=
  find (fun r => ID r =? id) t.

(** The rows a [WHERE note_id = ?] touches. *)
Definition rows_with_id (id : Z) (t : table) : Z :=
  Z.of_nat (List.length (filter (fun r => ID r =? id) t)).

(** [DELETE FROM notes WHERE note_id = ?]. *)
Definition delete_by_id (id : Z) (t : table) : table :=
  filter (fun r => negb (ID r =? id)) t.

(** [UPDATE notes SET content = ? WHERE note_id = ?], the statement alone. *)
Definition set_content (content : string) (id : Z) (t : table) : table :=
  map (fun r => if ID r =? id
                then mkNote (ID r) (Title r) content (CreatedAt r) (LastEditedAt r)
                else r) t.

(** The body of trigger [update_last_edited_at], run after the update of a
    row whose [note_id] was [old_id]:
    [UPDATE notes SET last_edited_at = CURRENT_TIMESTAMP
     WHERE note_id = OLD.note_id].  Triggers are not recursive, so this
    inner UPDATE fires nothing. *)
Definition update_last_edited_at (e : Env) (old_id : Z) (t : table) : table :=
  map (fun r => if ID r =? old_id
                then mkNote (ID r) (Title r) (Content r) (CreatedAt r) (now e)
                else r) t.

(** The UPDATE with its trigger (AFTER UPDATE, FOR EACH ROW): the rows
    changed by the statement itself are counted, the trigger's are not. *)
Definition exec_update (e : Env) (content : string) (id : Z) (t : table)
  : Z * table :=
  let affected := rows_with_id id t in
  let t1 := set_content content id t in
  (affected, if 0 <? affected then update_last_edited_at e id t1 else t1).

(** *** The operations of [*Storage]

    Each takes the table before and returns its result with the table
    after. *)

(** [NewNote]: [INSERT INTO notes (title, content) VALUES (?, ?)];
    [created_at] and [last_edited_at] take their default,
    [CURRENT_TIMESTAMP]; the id is [LastInsertId]. *)
Definition NewNote (e : Env) (noteTitle content : string) (t : table)
  : result Z * table :=
  match validateSQLParam [StringParam noteTitle; StringParam content] with
  | Some err => (Err err, t)
  | None =>
      match new_rowid e t with
      | None => (Err SQLITE_FULL, t)
      | Some id =>
          (Ok id, insert_row (mkNote id noteTitle content (now e) (now e)) t)
      end
  end.

(** [DeleteNote]. *)
Definition DeleteNote (id : Z) (t : table) : result Z * table :=
  match validateSQLParam [IntParam id] with
  | Some err => (Err err, t)
  | None =>
      let rowsAffected := rows_with_id id t in
      let t' := delete_by_id id t in
      if rowsAffected =? 0 then (Err ErrNoRows, t') else (Ok id, t')
  end.

(** [SetNoteContent]. *)
Definition SetNoteContent (e : Env) (noteID : Z) (content : string) (t : table)
  : option error * table :=
  match validateSQLParam [IntParam noteID; StringParam content] with
  | Some err => (Some err, t)
  | None =>
      let '(rowsAffected, t') := exec_update e content noteID t in
      if rowsAffected =? 0 then (Some ErrNoRows, t') else (None, t')
  end.

(** [GetNoteByID]: [QueryRow(...).Scan] gives [sql.ErrNoRows] when the
    query has no row. *)
Definition GetNoteByID (noteID : Z) (t : table) : result Note :=
  match validateSQLParam [IntParam noteID] with
  | Some err => Err err
  | None =>
      match select_by_id noteID t with
      | Some note => Ok note
      | None => Err ErrNoRows
      end
  end.

(** [GetAllNotes]: [SELECT * FROM notes]. *)
Definition GetAllNotes (t : table) : result (list Note) := Ok t.

(** The rows that [rows.Next()] delivers for
    [SELECT * FROM notes WHERE title LIKE ? OR content LIKE ?], both
    parameters bound to [pattern]. When the statement fails on a row,
    [rows.Next()] is false as at the end of the rows, and the caller below
    never consults [rows.Err()]: the rows end there. *)
Fixpoint rows_like (pattern : string) (t : table) : list Note :=
  match t with
  | [] => []
  | r :: t' =>
      match sqlite3.like pattern (Title r), sqlite3.like pattern (Content r) with
      | Some a, Some b => if a || b then r :: rows_like pattern t'
                          else rows_like pattern t'
      | _, _ => []
      end
  end.

(** [SearchNotesByKeyword]. *)
Definition SearchNotesByKeyword (keyword : string) (t : table)
  : result (list Note) :=
  match validateSQLParam [StringParam keyword] with
  | Some err => Err err
  | None =>
      let keywordPattern := "%" +++ keyword +++ "%" in
      Ok (rows_like keywordPattern t)
  end.

End sqlite.

(** ** strconv.Atoi *)

Module strconv.

Definition maxUint64 : Z := 18446744073709551615.

Definition is_digit (a : ascii) : bool :=
  (48 <=? byte_val a) && (byte_val a <=? 57).

(** The digit loop of [ParseUint(s, 10, 64)]: the first byte that is not a
    digit is a syntax error, the first step past 64 bits a range error. *)
Fixpoint parse_digits (n : Z) (s : string) : AtoiFailure + Z :=
  match s with
  | EmptyString => inr n
  | String a s' =>
      if is_digit a then
        if n >=? maxUint64 / 10 + 1 then inl ErrRange
        else
          let n1 := n * 10 + (byte_val a - 48) in
          if n1 >? maxUint64 then inl ErrRange else parse_digits n1 s'
      else inl ErrSyntax
  end.

Definition ParseUint (s : string) : AtoiFailure + Z :=
  match s with
  | EmptyString => inl ErrSyntax
  | _ => parse_digits 0 s
  end.

(** [Atoi(s)]: an optional sign and decimal digits, within 64 bits. *)
Definition Atoi (s0 : string) : result Z :=
  match s0 with
  | EmptyString => Err (NumError s0 ErrSyntax)
  | String a rest =>
      let neg := (byte_val a =? 45) in
      let s := if (byte_val a =? 43) || neg then rest else s0 in
      match ParseUint s with
      | inl f => Err (NumError s0 f)
      | inr un =>
          if negb neg && (un >=? 2 ^ 63) then Err (NumError s0 ErrRange)
          else if neg && (un >? 2 ^ 63) then Err (NumError s0 ErrRange)
          else Ok (if neg then - un else un)
      end
  end.

(** [strconv.ParseBool]. *)
Definition ParseBool (str : string) : option bool :=
  if existsb (String.eqb str) ["1"; "t"; "T"; "TRUE"; "true"; "True"] then Some true
  else if existsb (String.eqb str) ["0"; "f"; "F"; "FALSE"; "false"; "False"] then Some false
  else None.

End strconv.

(** ** package cli *)

Module cli.

(** [interface Storage], over a store of type [S]: each method takes the
    store before and returns its result with the store after. *)
Class Storage (S : Type) := {
  NewNote : string -> string -> S -> result Z * S;
  DeleteNote : Z -> S -> result Z * S;
  SetNoteContent : Z -> string -> S -> option error * S;
  GetNoteByID : Z -> S -> result Note * S;
  GetAllNotes : S -> result (list Note) * S;
  SearchNotesByKeyword : string -> S -> result (list Note) * S
}.

(** The six commands of [NewCLI]. *)
Inductive Command :=
| cmdNew | cmdDelete | cmdGet | cmdList | cmdUpdate | cmdSearch.

(** [c.Args().Get(n)]: the empty string when there is no such argument. *)
Definition Get (n : nat) (args : list string) : string :=
  nth n args EmptyString.
Definition First (args : list string) : string := Get 0 args.

Definition nl : string := String "010"%char EmptyString.

(** [fmt.Println(s)]. *)
Definition Println (s : string) : string := s +++ nl.

(** What an Action leaves: the text printed, the error returned, the store. *)
Record Outcome (S : Type) := mkOutcome {
  printed : string;
  returned : option error;
  store : S
}.
Arguments mkOutcome {S}.
Arguments printed {S}.
Arguments returned {S}.
Arguments store {S}.

(** *** The flags of a command

    [Command.Run] of urfave/cli parses the arguments that follow the name of
    the command before it calls the Action. None of the six commands
    declares a flag, so the only flag is the one the library adds to every
    command: [HelpFlag], a [BoolFlag] of name [help, h]. *)

(** [strings.HasPrefix(s, "-")]. *)
Definition HasPrefixDash (s : string) : bool := String.prefix "-" s.

(** [strings.Replace] of the first [-] by nothing, on a string that starts
    with [-]. *)
Definition dropDash (s : string) : string :=
  match s with
  | String a s' => if Ascii.eqb a "-" then s' else s
  | EmptyString => s
  end.

(** [strings.Split(s, "=")[0]]. *)
Fixpoint beforeEquals (s : string) : string :=
  match s with
  | EmptyString => EmptyString
  | String a s' => if Ascii.eqb a "=" then EmptyString else String a (beforeEquals s')
  end.

(** [strings.Contains(s, "=")]. *)
Fixpoint containsEquals (s : string) : bool :=
  match s with
  | EmptyString => false
  | String a s' => Ascii.eqb a "=" || containsEquals s'
  end.

(** [isFlag(commandFlags, arg)], for the help flag alone. *)
Definition isFlag (arg : string) : bool :=
  if String.eqb arg "-" then false
  else if negb (HasPrefixDash arg) then false
  else
    let arg1 := if String.prefix "--" arg then dropDash (dropDash arg) else arg in
    let arg2 := if HasPrefixDash arg1 then dropDash arg1 else arg1 in
    let key := beforeEquals arg2 in
    String.eqb key "help" || String.eqb key "h".

(** The loop of [reorderArgs]: the flags taken to the front and the other
    arguments, with [nextIndexMayContainValue] as [next]. *)
Fixpoint reorder (next : bool) (args : list string) : list string * list string :=
  match args with
  | [] => ([], [])
  | arg :: rest =>
      if String.eqb arg "--" then ([], args)
      else if next && negb (HasPrefixDash arg) then
        let (reordered, remaining) := reorder false rest in
        (arg :: reordered, remaining)
      else if isFlag arg then
        let (reordered, remaining) := reorder (negb (containsEquals arg)) rest in
        (arg :: reordered, remaining)
      else
        let (reordered, remaining) := reorder next rest in
        (reordered, arg :: remaining)
  end.

Definition reorderArgs (args : list string) : list string :=
  let (reordered, remaining) := reorder false args in
  reordered ++ remaining.

(** What [parseOne] of package flag makes of the argument it looks at. *)
Inductive Parsed :=
| NotAFlag                               (* the flags end before it *)
| Terminator                             (* [--]: the flags end after it *)
| BadFlag (err : error)
| SetFlag (name : string) (value : bool).

(** The name and the value of [name=value]; an [=] is not looked for in the
    first byte. *)
Fixpoint splitEquals (s : string) : string * option string :=
  match s with
  | EmptyString => (EmptyString, None)
  | String a s' =>
      if Ascii.eqb a "=" then (EmptyString, Some s')
      else let (name, value) := splitEquals s' in (String a name, value)
  end.

Definition parseOne (s : string) : Parsed :=
  match s with
  | String a0 (String a1 s2 as s1) =>
      if negb (Ascii.eqb a0 "-") then NotAFlag
      else if String.eqb s "--" then Terminator
      else
        let name := if Ascii.eqb a1 "-" then s2 else s1 in
        match name with
        | EmptyString => BadFlag (ErrorNew ("bad flag syntax: " +++ s))
        | String c name' =>
            if Ascii.eqb c "-" || Ascii.eqb c "=" then
              BadFlag (ErrorNew ("bad flag syntax: " +++ s))
            else
              let (name1, value) := splitEquals name' in
              let name := String c name1 in
              if String.eqb name "help" || String.eqb name "h" then
                match value with
                | None => SetFlag name true
                | Some v =>
                    match strconv.ParseBool v with
                    | Some b => SetFlag name b
                    | None =>
                        BadFlag (ErrorNew ("invalid boolean value " +++ quote v
                                           +++ " for -" +++ name +++ ": parse error"))
                    end
                end
              else BadFlag (ErrorNew ("flag provided but not defined: -" +++ name))
        end
  | _ => NotAFlag
  end.

(** [Parse] of a [*FlagSet]: the values given to [help] and to [h], and the
    arguments left. *)
Fixpoint Parse (help h : option bool) (args : list string)
    : result (option bool * option bool * list string) :=
  match args with
  | [] => Ok (help, h, [])
  | s :: rest =>
      match parseOne s with
      | NotAFlag => Ok (help, h, args)
      | Terminator => Ok (help, h, rest)
      | BadFlag err => Err err
      | SetFlag name value =>
          if String.eqb name "help" then Parse (Some value) h rest
          else Parse help (Some value) rest
      end
  end.

(** [parseFlags] of a [*Command], with [normalizeFlags]: whether help is asked
    for, and [c.Args()]. *)
Definition parseFlags (args : list string) : result (bool * list string) :=
  match Parse None None (reorderArgs args) with
  | Err err => Err err
  | Ok (Some _, Some _, _) =>
      Err (ErrorNew "Cannot use two forms of the same flag: h help")
  | Ok (Some b, None, positional) => Ok (b, positional)
  | Ok (None, Some b, positional) => Ok (b, positional)
  | Ok (None, None, positional) => Ok (false, positional)
  end.

Section Actions.

Context {S : Type} `{Storage S}.

(** [String()] of a [time.Time], used by [%s]. *)
Variable timeString : Z -> string.

(** The text [ShowCommandHelp] prints for a command; it names the program
    as it was called. *)
Variable commandHelp : Command -> string.

Definition updateNoteContentCommand (args : list string) (st : S) : Outcome S :=
  let noteIDStr := First args in
  if String.eqb noteIDStr EmptyString then
    mkOutcome (Println "Please provide ID of note to update.") None st
  else
    match strconv.Atoi noteIDStr with
    | Err err => mkOutcome EmptyString (Some (Errorf "invalid note ID: " err EmptyString)) st
    | Ok noteID =>
        let content := Get 1 args in
        if String.eqb content EmptyString then
          mkOutcome (Println "Please provide content to update note.") None st
        else
          match SetNoteContent noteID content st with
          | (Some err, st') =>
              mkOutcome EmptyString (Some (Errorf "updating note: " err EmptyString)) st'
          | (None, st') =>
              mkOutcome ("Updated note with ID " +++ itoa noteID +++ nl) None st'
          end
    end.

Definition search_line (note : Note) : string :=
  "ID: " +++ itoa (ID note) +++ ", Title: " +++ Title note
  +++ ", Content: " +++ Content note
  +++ ", CreatedAt: " +++ timeString (CreatedAt note)
  +++ ", LastEditedAt: " +++ timeString (LastEditedAt note) +++ nl.

Definition searchNotesCommand (args : list string) (st : S) : Outcome S :=
  let keyword := First args in
  if String.eqb keyword EmptyString then
    mkOutcome (Println "Please provide a keyword to search for notes.") None st
  else
    match SearchNotesByKeyword keyword st with
    | (Err err, st') =>
        mkOutcome ("Error searching notes: " +++ Error err +++ nl) (Some err) st'
    | (Ok notes, st') =>
        match notes with
        | [] => mkOutcome ("No notes found for keyword: " +++ keyword +++ nl) None st'
        | _ :: _ =>
            mkOutcome ("Notes found for keyword '" +++ keyword +++ "':" +++ nl
                       +++ String.concat EmptyString (map search_line notes))
                      None st'
        end
    end.

Definition getNoteByIDCommand (args : list string) (st : S) : Outcome S :=
  let noteIDStr := First args in
  if String.eqb noteIDStr EmptyString then
    mkOutcome (Println "Please provide ID of note to retrieve.") None st
  else
    match strconv.Atoi noteIDStr with
    | Err err => mkOutcome EmptyString (Some (Errorf "invalid note ID: " err EmptyString)) st
    | Ok noteID =>
        match GetNoteByID noteID st with
        | (Err err, st') =>
            mkOutcome EmptyString (Some (Errorf "retrieving note: " err EmptyString)) st'
        | (Ok note, st') =>
            mkOutcome ("Note ID: " +++ itoa (ID note) +++ nl
                       +++ "Title: " +++ Title note +++ nl
                       +++ "Content: " +++ Content note +++ nl
                       +++ "CreatedAt: " +++ timeString (CreatedAt note) +++ nl
                       +++ "LastEditedAt: " +++ timeString (LastEditedAt note) +++ nl)
                      None st'
        end
    end.

Definition list_line (note : Note) : string :=
  "ID: " +++ itoa (ID note) +++ ", Title: " +++ Title note
  +++ ", CreatedAt: " +++ timeString (CreatedAt note)
  +++ ", LastEditedAt: " +++ timeString (LastEditedAt note) +++ nl.

Definition listNotesCommand (args : list string) (st : S) : Outcome S :=
  match GetAllNotes st with
  | (Err err, st') =>
      mkOutcome ("Error listing notes: " +++ Error err +++ nl) (Some err) st'
  | (Ok notes, st') =>
      mkOutcome (Println "List of notes:"
                 +++ String.concat EmptyString (map list_line notes))
                None st'
  end.

Definition deleteNoteCommand (args : list string) (st : S) : Outcome S :=
  let noteIDStr := First args in
  if String.eqb noteIDStr EmptyString then
    mkOutcome EmptyString (Some (ErrorNew "please provide ID of note to delete")) st
  else
    match strconv.Atoi noteIDStr with
    | Err err => mkOutcome EmptyString (Some (Errorf "invalid note ID: " err EmptyString)) st
    | Ok noteID =>
        match DeleteNote noteID st with
        | (Err err, st') =>
            mkOutcome EmptyString (Some (Errorf "Error deleting note: " err nl)) st'
        | (Ok deletedNoteID, st') =>
            mkOutcome ("Deleted note with ID " +++ itoa deletedNoteID +++ nl) None st'
        end
    end.

Definition newNoteCommand (args : list string) (st : S) : Outcome S :=
  let title := First args in
  if String.eqb title EmptyString then
    mkOutcome (Println "Please provide a title for new note.") None st
  else
    let content := Get 1 args in
    if String.eqb content EmptyString then
      mkOutcome (Println "Please provide content for new note.") None st
    else
      match NewNote title content st with
      | (Err err, st') =>
          mkOutcome EmptyString (Some (Errorf "creating new note: " err nl)) st'
      | (Ok noteID, st') =>
          mkOutcome ("Created a new note with ID " +++ itoa noteID +++ nl) None st'
      end.

(** [HandleAction(c.Action, context)]: the Action of the command, on
    [c.Args()]. *)
Definition HandleAction (cmd : Command) (args : list string) (st : S) : Outcome S :=
  match cmd with
  | cmdNew => newNoteCommand args st
  | cmdDelete => deleteNoteCommand args st
  | cmdGet => getNoteByIDCommand args st
  | cmdList => listNotesCommand args st
  | cmdUpdate => updateNoteContentCommand args st
  | cmdSearch => searchNotesCommand args st
  end.

(** [app.Run] on a command line that names one of the six commands, [args]
    being the arguments after the name: [Command.Run] parses the flags; on
    an error it prints the error and the help of the command and returns
    the error, on [-h] or [--help] it prints the help, and otherwise it
    calls the Action. None of the errors has an exit code of its own, so
    [Run] hands the error back and exits nothing. *)
Definition Run (cmd : Command) (args : list string) (st : S) : Outcome S :=
  match parseFlags args with
  | Err err =>
      mkOutcome (Println ("Incorrect Usage: " +++ Error err) +++ nl +++ commandHelp cmd)
                (Some err) st
  | Ok (true, _) => mkOutcome (commandHelp cmd) None st
  | Ok (false, positional) => HandleAction cmd positional st
  end.

End Actions.

End cli.

(** ** package main *)

Module main.

(** [*sqlite.Storage] as a [cli.Storage]: the store is the table, and the
    one statement of the invocation runs in environment [e]. *)
#[export] Instance sqliteStorage (e : sqlite.Env) : cli.Storage sqlite.table := {|
  cli.NewNote := sqlite.NewNote e;
  cli.DeleteNote := sqlite.DeleteNote;
  cli.SetNoteContent := sqlite.SetNoteContent e;
  cli.GetNoteByID := fun noteID t => (sqlite.GetNoteByID noteID t, t);
  cli.GetAllNotes := fun t => (sqlite.GetAllNotes t, t);
  cli.SearchNotesByKeyword := fun keyword t => (sqlite.SearchNotesByKeyword keyword t, t)
|}.

(** What a run of the program leaves: standard output, the exit code, and
    the table in the file ([None] when the file could not be opened). *)
Record Process := mkProcess {
  stdout : string;
  exitCode : Z;
  file : option sqlite.table
}.

Section Main.

Variable timeString : Z -> string.
Variable commandHelp : cli.Command -> string.

(** [main]. [opened] is what [sqlite.New(storageName)] returns: the table
    of the file, or the error of opening it; [closed] is what
    [storage.Close()] returns in the deferred call. After [app.Run] the
    function prints the error, if any, and returns: the exit code is 0. *)
Definition main (opened : result sqlite.table) (closed : option error)
    (e : sqlite.Env) (cmd : cli.Command) (args : list string) : Process :=
  match opened with
  | Err err =>
      mkProcess ("Error initializing storage: " +++ Error err +++ cli.nl) 1 None
  | Ok storage =>
      let o := cli.Run (H := sqliteStorage e) timeString commandHelp cmd args
                       storage in
      let run_report :=
        match cli.returned o with
        | Some err => "Error: " +++ Error err +++ cli.nl
        | None => EmptyString
        end in
      let close_report :=
        match closed with
        | Some err => "Error closing storage: " +++ Error err +++ cli.nl
        | None => EmptyString
        end in
      mkProcess (cli.printed o +++ run_report +++ close_report) 0
                (Some (cli.store o))
  end.

End Main.

End main.

(** * Notions the properties are stated with *)

Import sqlite.

(** The two bounds of [validateSQLParam]. *)
Definition bad_number (v : Z) : Prop := v < 1 \/ v > MaxInt32.
Definition bad_length (s : string) : Prop := len s < 1 \/ len s > maxStringLength.

(** The tables the program can leave in a file it created: [New], then any
    number of statements, each at its own time. *)
Inductive reachable : table -> Prop :=
| reach_New : reachable New
| reach_NewNote e title content t :
    reachable t -> reachable (snd (NewNote e title content t))
| reach_DeleteNote id t :
    reachable t -> reachable (snd (DeleteNote id t))
| reach_SetNoteContent e id content t :
    reachable t -> reachable (snd (SetNoteContent e id content t)).

(** What every stored note satisfies. *)
Definition stored_ok (r : Note) : Prop :=
  1 <= ID r <= MaxInt64
  /\ 1 <= len (Title r) <= maxStringLength
  /\ 1 <= len (Content r) <= maxStringLength.

(** An environment for the examples: the clock reads 100. *)
Definition env100 : Env := mkEnv 100 (fun _ => 0).

(** An argument that does not start with [-]: one that no step of the flag
    parsing can take for a flag. *)
Definition no_dash (arg : string) : Prop := cli.HasPrefixDash arg = false.

(** A help text for the examples. *)
Definition help_text (cmd : cli.Command) : string := "help".

Import sqlite3.

(** *** Rows *)

(** The row an UPDATE and its trigger leave in place of [old]. *)
Definition updated (e : Env) (content : string) (old : Note) : Note :=
  mkNote (ID old) (Title old) content (CreatedAt old) (now e).

(** The id after the largest in use, 1 on an empty table. *)
Definition next_rowid (t : table) : Z :=
  match max_rowid t with
  | None => 1
  | Some m => m + 1
  end.

(** A table with one note, made by the program at time 100. *)
Definition one_note : table := [mkNote 1 "T" "C" 100 100].

(** The table with the one note of the largest id that [GetNoteByID]
    accepts. *)
Definition last_readable : table := [mkNote 2147483647 "T" "C" 0 0].

(** *** Text *)

(** A byte. *)
Definition is_byte (x : Z) : Prop := 0 <= x < 256.

(** [k] is the front of [s], character for character as LIKE compares. *)
Fixpoint starts_with (k s : list Z) : bool :=
  match k, s with
  | [], _ => true
  | c :: k', c2 :: s' => char_eq c c2 && starts_with k' s'
  | _ :: _, [] => false
  end.

(** [k] occurs in [s]: it is the front of [s] or occurs further on. *)
Fixpoint occurs (k s : list Z) : bool :=
  starts_with k s
  || match s with [] => false | _ :: s' => occurs k s' end.

(** [k] is the front of [s], byte for byte. *)
Fixpoint has_prefix (k s : list Z) : bool :=
  match k, s with
  | [], _ => true
  | x :: k', y :: s' => (x =? y) && has_prefix k' s'
  | _ :: _, [] => false
  end.

(** [strings.Contains] on bytes: [k] is a substring of [s]. *)
Fixpoint contains (k s : list Z) : bool :=
  has_prefix k s
  || match s with [] => false | _ :: s' => contains k s' end.

(** A character that is no wildcard. *)
Definition plain_char (c : Z) : Prop := c <> matchAll /\ c <> matchOne.

(** A keyword with no NUL byte and no wildcard of LIKE. *)
Definition plain_keyword (keyword : string) : Prop :=
  Forall (fun x => x <> 0 /\ x <> matchAll /\ x <> matchOne) (bytes keyword).

(** A keyword of ASCII characters. *)
Definition ascii_keyword (keyword : string) : Prop :=
  Forall (fun x => x < 128) (bytes keyword).

(** The keyword occurs in the text, both read as SQLite reads them (UTF-8
    characters, up to the first NUL byte of the text), ASCII letters
    compared without their case. *)
Definition occurs_in (keyword text : string) : bool :=
  occurs (utf8_chars (bytes keyword)) (utf8_chars (cstring (bytes text))).

(** The ASCII capitals of a text made small letters. *)
Definition fold_case (b : list Z) : list Z := map sqlite3Tolower b.

(** The keyword is a substring of the text once the ASCII capitals of
    both are made small letters. *)
Definition ContainsFold (keyword text : string) : bool :=
  contains (fold_case (bytes keyword)) (fold_case (cstring (bytes text))).

(** [strings.Contains]: the keyword is a substring of the text as written. *)
Definition Contains (keyword text : string) : bool :=
  contains (bytes keyword) (bytes text).

(** The pattern made of the keyword is within the length LIKE accepts. *)
Definition within_like_limit (keyword : string) : Prop :=
  len keyword + 2 <= SQLITE_MAX_LIKE_PATTERN_LENGTH.

(** The two notes of the repository's search test. *)
Definition note1 : Note :=
  mkNote 1 "Test Note 1" "This is the first test note." 100 100.
Definition note2 : Note :=
  mkNote 2 "Test Note 2" "This is the second test note with a keyword." 100 100.

(** A keyword of 49999 bytes: valid for [validateSQLParam], and one byte
    too long for a LIKE pattern once it stands between two ['%']. *)
Fixpoint repeat_string (n : nat) (s : string) : string :=
  match n with
  | O => EmptyString
  | S n' => s +++ repeat_string n' s
  end.
Definition long_keyword : string := repeat_string (Z.to_nat 49999) "k".

(** A keyword with a NUL byte in it: "note.", NUL, "x". *)
Definition nul_keyword : string := "note." +++ String "000"%char "x".

(** *** Order, time and the notes of a table *)

(** The rows of a table stand in strictly increasing order of their id. *)
Definition ids_increasing (t : table) : Prop :=
  StronglySorted (fun a b => ID a < ID b) t.

(** The tables the program can leave in a file it created while the clock
    never goes back: [reachable_at c t] when the statements ran at clock
    seconds that never decrease and end at or before [c]. *)
Inductive reachable_at : Z -> table -> Prop :=
| at_New c : reachable_at c New
| at_NewNote e title content c t :
    reachable_at c t -> c <= now e ->
    reachable_at (now e) (snd (NewNote e title content t))
| at_DeleteNote id c t :
    reachable_at c t -> reachable_at c (snd (DeleteNote id t))
| at_SetNoteContent e id content c t :
    reachable_at c t -> c <= now e ->
    reachable_at (now e) (snd (SetNoteContent e id content t)).

(** A note is written no later than [c], and edited no sooner than it was
    created. *)
Definition times_ok (c : Z) (r : Note) : Prop :=
  CreatedAt r <= LastEditedAt r <= c.

(** The ids of a table, in its order. *)
Definition ids (t : table) : list Z := map ID t.

(** A text with no NUL byte. *)
Definition no_nul (text : string) : Prop := Forall (fun x => x <> 0) (bytes text).

(** The error of a result, [None] for [nil]. *)
Definition error_of {T : Type} (r : result T) : option error :=
  match r with
  | Ok _ => None
  | Err e => Some e
  end.

(** A parameter within the bounds of [validateSQLParam], and the error of
    one that is not. *)
Definition param_ok (p : param) : Prop :=
  match p with
  | IntParam v => ~ bad_number v
  | StringParam v => ~ bad_length v
  end.

Definition param_error (p : param) : error :=
  match p with
  | IntParam _ => invalidNum
  | StringParam _ => invalidParamLength
  end.

(** The commands that only read. *)
Definition reads_only (cmd : cli.Command) : Prop :=
  cmd = cli.cmdGet \/ cmd = cli.cmdList \/ cmd = cli.cmdSearch.

(** The number that decimal digits [d] write after the number [acc]. *)
Fixpoint uint_val (acc : Z) (d : Decimal.uint) : Z :=
  match d with
  | Decimal.Nil => acc
  | Decimal.D0 d' => uint_val (acc * 10) d'
  | Decimal.D1 d' => uint_val (acc * 10 + 1) d'
  | Decimal.D2 d' => uint_val (acc * 10 + 2) d'
  | Decimal.D3 d' => uint_val (acc * 10 + 3) d'
  | Decimal.D4 d' => uint_val (acc * 10 + 4) d'
  | Decimal.D5 d' => uint_val (acc * 10 + 5) d'
  | Decimal.D6 d' => uint_val (acc * 10 + 6) d'
  | Decimal.D7 d' => uint_val (acc * 10 + 7) d'
  | Decimal.D8 d' => uint_val (acc * 10 + 8) d'
  | Decimal.D9 d' => uint_val (acc * 10 + 9) d'
  end.

(** * Properties *)

(** ** Validation *)

Lemma validate_int_bad v rest :
  bad_number v -> validateSQLParam (IntParam v :: rest) = Some invalidNum.
Proof.
  unfold bad_number. intros Hv. simpl.
  destruct (Z.ltb_spec v 1); simpl; [reflexivity|].
  destruct (Z.gtb_spec v MaxInt32); [reflexivity|lia].
Qed.

Lemma validate_int_ok v rest :
  ~ bad_number v -> validateSQLParam (IntParam v :: rest) = validateSQLParam rest.
Proof.
  unfold bad_number. intros Hv. simpl.
  destruct (Z.ltb_spec v 1); simpl; [lia|].
  destruct (Z.gtb_spec v MaxInt32); [lia|reflexivity].
Qed.

Lemma validate_string_bad v rest :
  bad_length v -> validateSQLParam (StringParam v :: rest) = Some invalidParamLength.
Proof.
  unfold bad_length. intros Hv. simpl.
  destruct (Z.ltb_spec (len v) 1); simpl; [reflexivity|].
  destruct (Z.gtb_spec (len v) maxStringLength); [reflexivity|lia].
Qed.

Lemma validate_string_ok v rest :
  ~ bad_length v -> validateSQLParam (StringParam v :: rest) = validateSQLParam rest.
Proof.
  unfold bad_length. intros Hv. simpl.
  destruct (Z.ltb_spec (len v) 1); simpl; [lia|].
  destruct (Z.gtb_spec (len v) maxStringLength); [lia|reflexivity].
Qed.

Lemma bad_number_dec v : {bad_number v} + {~ bad_number v}.
Proof.
  unfold bad_number.
  destruct (Z_lt_dec v 1); [left; lia|].
  destruct (Z_gt_dec v MaxInt32); [left; lia|right; lia].
Qed.

Lemma bad_length_dec s : {bad_length s} + {~ bad_length s}.
Proof.
  unfold bad_length.
  destruct (Z_lt_dec (len s) 1); [left; lia|].
  destruct (Z_gt_dec (len s) maxStringLength); [left; lia|right; lia].
Qed.

(** The validator answers [nil] exactly on parameters all within bounds. *)
Lemma validate_nil_iff params :
  validateSQLParam params = None <->
  Forall (fun p => match p with
                   | IntParam v => ~ bad_number v
                   | StringParam v => ~ bad_length v
                   end) params.
Proof.
  induction params as [|p rest IH].
  - simpl. split; auto.
  - destruct p as [v|v].
    + destruct (bad_number_dec v) as [Hb|Hb].
      * rewrite validate_int_bad by assumption. split; [discriminate|].
        intros HF. inversion HF; subst. contradiction.
      * rewrite validate_int_ok by assumption. rewrite IH.
        split; [intros; constructor; assumption|intros HF; inversion HF; assumption].
    + destruct (bad_length_dec v) as [Hb|Hb].
      * rewrite validate_string_bad by assumption. split; [discriminate|].
        intros HF. inversion HF; subst. contradiction.
      * rewrite validate_string_ok by assumption. rewrite IH.
        split; [intros; constructor; assumption|intros HF; inversion HF; assumption].
Qed.

(** [NewNote] with a title or a content out of bounds. *)
Lemma NewNote_bad_length (e : Env) (t : table) title content :
  bad_length title \/ bad_length content ->
  NewNote e title content t = (Err invalidParamLength, t).
Proof.
  intros Hbad. unfold NewNote.
  destruct (bad_length_dec title) as [Ht|Ht].
  - rewrite validate_string_bad by assumption. reflexivity.
  - rewrite validate_string_ok by assumption.
    destruct Hbad as [Hb|Hb]; [contradiction|].
    rewrite validate_string_bad by assumption. reflexivity.
Qed.

(** C2, as stated, fails where an integer and a string are both out of
    bounds: [SetNoteContent(0, "")] has a string parameter of length 0 and
    fails with "invalid number", not with "invalid param length". *)
Lemma C2_counterexample_first_offence_wins :
  bad_length EmptyString
  /\ SetNoteContent env100 0 EmptyString New = (Some invalidNum, New)
  /\ Error invalidNum = "invalid number"
  /\ Error invalidNum <> Error invalidParamLength.
Proof.
  repeat split; try reflexivity.
  - left. vm_compute. reflexivity.
  - discriminate.
Qed.

(** C2 (amended): in every operation that takes parameters, an integer out
    of [1, 2^31-1] makes the operation fail with InvalidParameter
    "invalid number"; a string of length out of [1, 256000] makes it fail
    with InvalidParameter "invalid param length", except in
    [SetNoteContent] when the id, checked first, is out of range as well,
    where the failure is "invalid number". The check runs before any
    statement: on each of these failures the table is unchanged. *)
Theorem C2_validation_before_any_query (e : Env) (t : table) :
  (forall title content, bad_length title \/ bad_length content ->
     NewNote e title content t = (Err invalidParamLength, t))
  /\ (forall id, bad_number id -> DeleteNote id t = (Err invalidNum, t))
  /\ (forall id content, bad_number id ->
        SetNoteContent e id content t = (Some invalidNum, t))
  /\ (forall id content, ~ bad_number id -> bad_length content ->
        SetNoteContent e id content t = (Some invalidParamLength, t))
  /\ (forall id, bad_number id -> GetNoteByID id t = Err invalidNum)
  /\ (forall keyword, bad_length keyword ->
        SearchNotesByKeyword keyword t = Err invalidParamLength)
  /\ InvalidParameter invalidNum /\ Error invalidNum = "invalid number"
  /\ InvalidParameter invalidParamLength
  /\ Error invalidParamLength = "invalid param length".
Proof.
  repeat split.
  - intros title content Hbad. apply NewNote_bad_length. assumption.
  - intros id Hbad. unfold DeleteNote.
    rewrite validate_int_bad by assumption. reflexivity.
  - intros id content Hbad. unfold SetNoteContent.
    rewrite validate_int_bad by assumption. reflexivity.
  - intros id content Hid Hbad. unfold SetNoteContent.
    rewrite validate_int_ok by assumption.
    rewrite validate_string_bad by assumption. reflexivity.
  - intros id Hbad. unfold GetNoteByID.
    rewrite validate_int_bad by assumption. reflexivity.
  - intros keyword Hbad. unfold SearchNotesByKeyword.
    rewrite validate_string_bad by assumption. reflexivity.
  - left; reflexivity.
  - right; reflexivity.
Qed.

Lemma C2_validation_witness :
  NewNote env100 EmptyString "C" New = (Err invalidParamLength, New)
  /\ DeleteNote 2147483648 New = (Err invalidNum, New)
  /\ SetNoteContent env100 7 EmptyString New = (Some invalidParamLength, New).
Proof.
  destruct (C2_validation_before_any_query env100 New)
    as (Hnew & Hdel & _ & Hset & _).
  split; [|split].
  - apply Hnew. left. left. vm_compute. reflexivity.
  - apply Hdel. right. vm_compute. reflexivity.
  - apply Hset.
    + unfold bad_number, MaxInt32. lia.
    + left. vm_compute. reflexivity.
Defined.

(** ** Rows and their ids *)

Lemma rows_with_id_nonneg id t : 0 <= rows_with_id id t.
Proof. unfold rows_with_id. lia. Qed.

Lemma rows_with_id_zero id t :
  rows_with_id id t = 0 <-> (forall note, In note t -> ID note <> id).
Proof.
  unfold rows_with_id. induction t as [|r t IH]; simpl.
  - split; [intros _ note []|reflexivity].
  - destruct (Z.eqb_spec (ID r) id) as [Heq|Hne]; simpl.
    + split; [lia|]. intros Hall. exfalso. apply (Hall r); auto.
    + rewrite IH. split.
      * intros Hall note [<-|Hin]; auto.
      * intros Hall note Hin. apply Hall. auto.
Qed.

Lemma select_by_id_none id t :
  select_by_id id t = None <-> (forall note, In note t -> ID note <> id).
Proof.
  unfold select_by_id. induction t as [|r t IH]; simpl.
  - split; [intros _ note []|reflexivity].
  - destruct (Z.eqb_spec (ID r) id) as [Heq|Hne].
    + split; [discriminate|]. intros Hall. exfalso. apply (Hall r); auto.
    + rewrite IH. split.
      * intros Hall note [<-|Hin]; auto.
      * intros Hall note Hin. apply Hall. auto.
Qed.

Lemma select_by_id_some id t note :
  select_by_id id t = Some note -> In note t /\ ID note = id.
Proof.
  unfold select_by_id. intros Hf. apply find_some in Hf.
  destruct Hf as [Hin Heq]. split; [assumption|]. apply Z.eqb_eq. assumption.
Qed.

Lemma rowid_in_use_false id t :
  rowid_in_use id t = false <-> (forall note, In note t -> ID note <> id).
Proof.
  unfold rowid_in_use. induction t as [|r t IH]; simpl.
  - split; [intros _ note []|reflexivity].
  - destruct (Z.eqb_spec (ID r) id) as [Heq|Hne]; simpl.
    + split; [discriminate|]. intros Hall. exfalso. apply (Hall r); auto.
    + rewrite IH. split.
      * intros Hall note [<-|Hin]; auto.
      * intros Hall note Hin. apply Hall. auto.
Qed.

Lemma delete_by_id_absent id t :
  (forall note, In note t -> ID note <> id) -> delete_by_id id t = t.
Proof.
  unfold delete_by_id. induction t as [|r t IH]; simpl; intros Hall.
  - reflexivity.
  - destruct (Z.eqb_spec (ID r) id) as [Heq|Hne]; simpl.
    + exfalso. apply (Hall r); auto.
    + f_equal. apply IH. intros note Hin. apply Hall. auto.
Qed.

Lemma select_after_delete id t : select_by_id id (delete_by_id id t) = None.
Proof.
  apply select_by_id_none. unfold delete_by_id. intros note Hin.
  apply filter_In in Hin. destruct Hin as [_ Hne].
  apply negb_true_iff in Hne. apply Z.eqb_neq. assumption.
Qed.

Lemma select_after_delete_other id id' t :
  id' <> id -> select_by_id id' (delete_by_id id t) = select_by_id id' t.
Proof.
  intros Hne. unfold select_by_id, delete_by_id.
  induction t as [|r t IH]; simpl; [reflexivity|].
  destruct (Z.eqb_spec (ID r) id) as [Heq|Hr]; simpl.
  - destruct (Z.eqb_spec (ID r) id'); [lia|]. assumption.
  - destruct (Z.eqb_spec (ID r) id'); [reflexivity|assumption].
Qed.

Lemma set_content_absent content id t :
  (forall note, In note t -> ID note <> id) -> set_content content id t = t.
Proof.
  unfold set_content. induction t as [|r t IH]; simpl; intros Hall.
  - reflexivity.
  - destruct (Z.eqb_spec (ID r) id) as [Heq|Hne].
    + exfalso. apply (Hall r); auto.
    + f_equal. apply IH. intros note Hin. apply Hall. auto.
Qed.

Lemma select_after_update e content id t old :
  select_by_id id t = Some old ->
  select_by_id id (update_last_edited_at e id (set_content content id t))
  = Some (updated e content old).
Proof.
  unfold select_by_id, update_last_edited_at, set_content.
  induction t as [|r t IH]; simpl; [discriminate|].
  destruct (ID r =? id) eqn:Hb; simpl; rewrite ?Hb; simpl; rewrite ?Hb.
  - intros [= <-]. reflexivity.
  - exact IH.
Qed.

Lemma select_after_update_other e content id id' t :
  id' <> id ->
  select_by_id id' (update_last_edited_at e id (set_content content id t))
  = select_by_id id' t.
Proof.
  intros Hne. unfold select_by_id, update_last_edited_at, set_content.
  induction t as [|r t IH]; simpl; [reflexivity|].
  destruct (ID r =? id) eqn:Hb; simpl; rewrite ?Hb; simpl.
  - apply Z.eqb_eq in Hb.
    destruct (Z.eqb_spec (ID r) id'); [lia|]. exact IH.
  - destruct (ID r =? id'); [reflexivity|exact IH].
Qed.

(** ** Not found *)

(** C5: for a valid id that no stored note has (and, for
    [SetNoteContent], valid content), [DeleteNote], [SetNoteContent] and
    [GetNoteByID] fail with NotFound ([sql.ErrNoRows]) and leave the table
    as it was; a [DeleteNote] that succeeds returns the id it was given,
    and [GetNoteByID] on that id then fails with NotFound. *)
Theorem C5_not_found (e : Env) (t : table) (id : Z) :
  ((forall note, In note t -> ID note <> id) -> ~ bad_number id ->
     DeleteNote id t = (Err ErrNoRows, t)
     /\ (forall content, ~ bad_length content ->
           SetNoteContent e id content t = (Some ErrNoRows, t))
     /\ GetNoteByID id t = Err ErrNoRows
     /\ NotFound ErrNoRows)
  /\ (forall deleted t', DeleteNote id t = (Ok deleted, t') ->
        deleted = id /\ GetNoteByID id t' = Err ErrNoRows).
Proof.
  split.
  - intros Habsent Hid.
    assert (Hrows : rows_with_id id t = 0) by (apply rows_with_id_zero; assumption).
    repeat split.
    + unfold DeleteNote. rewrite validate_int_ok by assumption. simpl.
      rewrite Hrows. simpl. rewrite delete_by_id_absent by assumption.
      reflexivity.
    + intros content Hcontent. unfold SetNoteContent, exec_update.
      rewrite validate_int_ok by assumption.
      rewrite validate_string_ok by assumption. simpl.
      rewrite Hrows. simpl. rewrite set_content_absent by assumption.
      reflexivity.
    + unfold GetNoteByID. rewrite validate_int_ok by assumption. simpl.
      apply select_by_id_none in Habsent. rewrite Habsent. reflexivity.
  - intros deleted t'. unfold DeleteNote, GetNoteByID.
    destruct (validateSQLParam [IntParam id]) as [err|]; [discriminate|].
    destruct (rows_with_id id t =? 0); [discriminate|].
    intros [= <- <-]. split; [reflexivity|].
    rewrite select_after_delete. reflexivity.
Qed.

Lemma C5_not_found_witness :
  DeleteNote 7 New = (Err ErrNoRows, New)
  /\ SetNoteContent env100 7 "C" New = (Some ErrNoRows, New)
  /\ GetNoteByID 7 New = Err ErrNoRows
  /\ GetNoteByID 1 (snd (DeleteNote 1 [mkNote 1 "T" "C" 100 100])) = Err ErrNoRows.
Proof.
  assert (Habsent : forall note, In note New -> ID note <> 7) by (intros note []).
  assert (Hid : ~ bad_number 7) by (unfold bad_number, MaxInt32; lia).
  assert (Hcontent : ~ bad_length "C")
    by (unfold bad_length, maxStringLength; vm_compute; intuition discriminate).
  destruct (C5_not_found env100 New 7) as [Hmissing _].
  destruct (Hmissing Habsent Hid) as (Hdel & Hset & Hget & _).
  destruct (C5_not_found env100 [mkNote 1 "T" "C" 100 100] 1) as [_ Hok].
  split; [exact Hdel|].
  split; [exact (Hset "C" Hcontent)|].
  split; [exact Hget|].
  exact (proj2 (Hok 1 New eq_refl)).
Defined.

(** ** Row ids given by INSERT *)

Lemma max_rowid_bound t m :
  max_rowid t = Some m -> forall note, In note t -> ID note <= m.
Proof.
  revert m. induction t as [|r t IH]; simpl; intros m Hm note Hin.
  - contradiction.
  - destruct (max_rowid t) as [m'|] eqn:Hmax.
    + injection Hm as <-. destruct Hin as [<-|Hin].
      * lia.
      * specialize (IH m' eq_refl note Hin). lia.
    + injection Hm as <-. destruct Hin as [<-|Hin]; [lia|].
      destruct t; [contradiction|]. simpl in Hmax.
      destruct (max_rowid t); discriminate.
Qed.

Lemma max_rowid_attained t m :
  max_rowid t = Some m -> exists note, In note t /\ ID note = m.
Proof.
  revert m. induction t as [|r t IH]; simpl; intros m Hm.
  - discriminate.
  - destruct (max_rowid t) as [m'|] eqn:Hmax.
    + injection Hm as <-. destruct (Z.max_spec (ID r) m') as [[_ ->]|[_ ->]].
      * destruct (IH m' eq_refl) as (note & Hin & Heq). exists note. auto.
      * exists r. auto.
    + injection Hm as <-. exists r. auto.
Qed.

Lemma max_rowid_none t : max_rowid t = None -> t = [].
Proof.
  destruct t as [|r t]; [reflexivity|]. simpl.
  destruct (max_rowid t); discriminate.
Qed.

Lemma random_rowid_free rnd t k tries v :
  random_rowid rnd t k tries = Some v ->
  rowid_in_use v t = false /\ 1 <= v <= MaxInt64.
Proof.
  revert k. induction tries as [|tries IH]; cbn [random_rowid]; intros k Hv.
  - discriminate.
  - remember (Z.land (rnd k) (Z.shiftr MaxInt64 1) + 1) as cand eqn:Hcand.
    destruct (rowid_in_use cand t) eqn:Huse.
    + apply (IH (S k)). assumption.
    + injection Hv as <-. split; [assumption|].
      change (Z.shiftr MaxInt64 1) with (Z.ones 62) in Hcand.
      rewrite Z.land_ones in Hcand by lia.
      pose proof (Z.mod_pos_bound (rnd k) (2 ^ 62) ltac:(lia)).
      unfold MaxInt64. lia.
Qed.

(** An INSERT never takes the id of a stored row. *)
Lemma new_rowid_free e t id :
  new_rowid e t = Some id -> forall note, In note t -> ID note <> id.
Proof.
  unfold new_rowid. intros Hnew.
  destruct (max_rowid t) as [m|] eqn:Hmax.
  - destruct (Z.ltb_spec m MaxInt64).
    + injection Hnew as <-. intros note Hin.
      pose proof (max_rowid_bound t m Hmax note Hin). lia.
    + apply random_rowid_free in Hnew. apply rowid_in_use_false, Hnew.
  - apply max_rowid_none in Hmax. subst t. intros note [].
Qed.

Lemma new_rowid_range e t id :
  Forall stored_ok t -> new_rowid e t = Some id -> 1 <= id <= MaxInt64.
Proof.
  unfold new_rowid. intros Hok Hnew.
  destruct (max_rowid t) as [m|] eqn:Hmax.
  - destruct (Z.ltb_spec m MaxInt64).
    + injection Hnew as <-.
      destruct (max_rowid_attained t m Hmax) as (note & Hin & <-).
      rewrite Forall_forall in Hok. destruct (Hok note Hin) as [Hid _]. lia.
    + apply random_rowid_free in Hnew. apply Hnew.
  - injection Hnew as <-. unfold MaxInt64. lia.
Qed.

Lemma insert_row_In n t x : In x (insert_row n t) <-> x = n \/ In x t.
Proof.
  induction t as [|r t IH]; simpl.
  - intuition auto.
  - destruct (ID n <? ID r); simpl; rewrite ?IH; intuition auto.
Qed.

Lemma select_after_insert n t :
  (forall note, In note t -> ID note <> ID n) ->
  select_by_id (ID n) (insert_row n t) = Some n.
Proof.
  unfold select_by_id. induction t as [|r t IH]; simpl; intros Hfree.
  - rewrite Z.eqb_refl. reflexivity.
  - destruct (ID n <? ID r); simpl.
    + rewrite Z.eqb_refl. reflexivity.
    + destruct (Z.eqb_spec (ID r) (ID n)) as [Heq|Hne].
      * exfalso. apply (Hfree r); auto.
      * apply IH. intros note Hin. apply Hfree. auto.
Qed.

Lemma select_after_insert_other n t id :
  id <> ID n -> select_by_id id (insert_row n t) = select_by_id id t.
Proof.
  intros Hne. unfold select_by_id. induction t as [|r t IH]; simpl.
  - destruct (Z.eqb_spec (ID n) id); [lia|reflexivity].
  - destruct (ID n <? ID r); simpl.
    + destruct (Z.eqb_spec (ID n) id); [lia|reflexivity].
    + destruct (ID r =? id); [reflexivity|assumption].
Qed.

(** ** What every reachable table satisfies *)

Lemma NewNote_stored_ok e title content t :
  Forall stored_ok t -> Forall stored_ok (snd (NewNote e title content t)).
Proof.
  intros Hok. unfold NewNote.
  destruct (validateSQLParam _) as [err|] eqn:Hval; [assumption|].
  destruct (new_rowid e t) as [id|] eqn:Hnew; [|assumption]. simpl.
  apply validate_nil_iff in Hval.
  inversion Hval as [|? ? Htitle Hrest]; subst.
  inversion Hrest as [|? ? Hcontent _]; subst.
  pose proof (new_rowid_range e t id Hok Hnew) as Hid.
  rewrite Forall_forall in *. intros x Hin.
  apply insert_row_In in Hin. destruct Hin as [->|Hin]; [|auto].
  unfold stored_ok, bad_length in *. simpl. lia.
Qed.

Lemma DeleteNote_stored_ok id t :
  Forall stored_ok t -> Forall stored_ok (snd (DeleteNote id t)).
Proof.
  intros Hok. unfold DeleteNote.
  destruct (validateSQLParam _) as [err|]; [assumption|].
  assert (Hdel : Forall stored_ok (delete_by_id id t)).
  { rewrite Forall_forall in *. intros x Hin.
    apply filter_In in Hin. apply Hok, Hin. }
  simpl. destruct (rows_with_id id t =? 0); assumption.
Qed.

Lemma SetNoteContent_stored_ok e id content t :
  Forall stored_ok t -> Forall stored_ok (snd (SetNoteContent e id content t)).
Proof.
  intros Hok. unfold SetNoteContent, exec_update.
  destruct (validateSQLParam _) as [err|] eqn:Hval; [assumption|].
  apply validate_nil_iff in Hval.
  inversion Hval as [|? ? _ Hrest]; subst.
  inversion Hrest as [|? ? Hcontent _]; subst.
  assert (Hset : Forall stored_ok (set_content content id t)).
  { unfold set_content. rewrite Forall_forall in *. intros x Hin.
    apply in_map_iff in Hin. destruct Hin as (r & <- & Hin).
    specialize (Hok r Hin). destruct (ID r =? id); [|assumption].
    unfold stored_ok, bad_length in *. simpl. lia. }
  assert (Htrig : Forall stored_ok (update_last_edited_at e id (set_content content id t))).
  { unfold update_last_edited_at. rewrite Forall_forall in *. intros x Hin.
    apply in_map_iff in Hin. destruct Hin as (r & <- & Hin).
    specialize (Hset r Hin). destruct (ID r =? id); [|assumption].
    unfold stored_ok in *. simpl. assumption. }
  destruct (0 <? rows_with_id id t); simpl;
    destruct (rows_with_id id t =? 0); assumption.
Qed.

Lemma reachable_stored_ok t : reachable t -> Forall stored_ok t.
Proof.
  induction 1.
  - constructor.
  - apply NewNote_stored_ok. assumption.
  - apply DeleteNote_stored_ok. assumption.
  - apply SetNoteContent_stored_ok. assumption.
Qed.

(** [NewNote] with parameters within bounds, on a table whose ids are all
    below the largest 64-bit integer. *)
Lemma NewNote_ok e title content t :
  ~ bad_length title -> ~ bad_length content ->
  (forall note, In note t -> ID note < MaxInt64) ->
  NewNote e title content t
  = (Ok (next_rowid t),
     insert_row (mkNote (next_rowid t) title content (now e) (now e)) t).
Proof.
  intros Htitle Hcontent Hids. unfold NewNote, next_rowid, new_rowid.
  rewrite validate_string_ok by assumption.
  rewrite validate_string_ok by assumption. simpl.
  destruct (max_rowid t) as [m|] eqn:Hmax; [|reflexivity].
  destruct (max_rowid_attained t m Hmax) as (note & Hin & <-).
  specialize (Hids note Hin).
  destruct (Z.ltb_spec (ID note) MaxInt64); [reflexivity|lia].
Qed.

(** ** Empty content *)

(** C8, as stated, fails: no title, table or clock lets [NewNote] store a
    note with empty content. *)
Lemma C8_counterexample_empty_content_rejected :
  ~ (exists e title t id t', NewNote e title EmptyString t = (Ok id, t')).
Proof.
  intros (e & title & t & id & t' & Hnew). unfold NewNote in Hnew.
  destruct (bad_length_dec title) as [Ht|Ht].
  - rewrite validate_string_bad in Hnew by assumption. discriminate.
  - rewrite validate_string_ok in Hnew by assumption.
    rewrite validate_string_bad in Hnew; [discriminate|].
    left. vm_compute. reflexivity.
Qed.

(** C8 (amended): a note's content may not be empty. For every title,
    [NewNote] with empty content fails with InvalidParameter
    "invalid param length" and stores nothing; [SetNoteContent] with empty
    content fails with InvalidParameter and changes nothing; and no note
    of a reachable table has empty content: its length is within
    [1, 256000]. *)
Theorem C8_content_is_never_empty (e : Env) (t : table) :
  (forall title, NewNote e title EmptyString t = (Err invalidParamLength, t))
  /\ (forall id, exists err,
        SetNoteContent e id EmptyString t = (Some err, t) /\ InvalidParameter err)
  /\ (reachable t ->
      forall note, In note t ->
        Content note <> EmptyString /\ 1 <= len (Content note) <= maxStringLength).
Proof.
  assert (Hempty : bad_length EmptyString) by (left; vm_compute; reflexivity).
  split; [|split].
  - intros title.
    apply NewNote_bad_length. right. assumption.
  - intros id. destruct (bad_number_dec id) as [Hid|Hid].
    + exists invalidNum. split; [|left; reflexivity].
      unfold SetNoteContent. rewrite validate_int_bad by assumption. reflexivity.
    + exists invalidParamLength. split; [|right; reflexivity].
      unfold SetNoteContent. rewrite validate_int_ok by assumption.
      rewrite validate_string_bad by assumption. reflexivity.
  - intros Hreach note Hin.
    pose proof (reachable_stored_ok t Hreach) as Hok.
    rewrite Forall_forall in Hok. destruct (Hok note Hin) as (_ & _ & Hlen).
    split; [|assumption].
    intros Heq. rewrite Heq in Hlen. vm_compute in Hlen. destruct Hlen as [Hlen _].
    apply Hlen. reflexivity.
Qed.

Lemma one_note_reachable : reachable one_note.
Proof. exact (reach_NewNote env100 "T" "C" New reach_New). Qed.

Lemma C8_content_witness :
  NewNote env100 "T" EmptyString one_note = (Err invalidParamLength, one_note)
  /\ Content (mkNote 1 "T" "C" 100 100) <> EmptyString.
Proof.
  destruct (C8_content_is_never_empty env100 one_note) as (Hnew & _ & Hstored).
  split; [apply Hnew|].
  apply (Hstored one_note_reachable (mkNote 1 "T" "C" 100 100)). left. reflexivity.
Defined.

(** ** Update *)

Lemma rows_with_id_of_select id t old :
  select_by_id id t = Some old -> 0 < rows_with_id id t.
Proof.
  intros Hsel. pose proof (rows_with_id_nonneg id t) as Hnn.
  destruct (Z.eq_dec (rows_with_id id t) 0) as [Hz|Hz]; [|lia].
  pose proof (proj2 (select_by_id_none id t) (proj1 (rows_with_id_zero id t) Hz)) as Hnone.
  rewrite Hnone in Hsel. discriminate.
Qed.

(** What a successful [SetNoteContent] did. *)
Lemma SetNoteContent_success e id content t t' :
  SetNoteContent e id content t = (None, t') ->
  ~ bad_number id /\ ~ bad_length content /\ 0 < rows_with_id id t
  /\ t' = update_last_edited_at e id (set_content content id t).
Proof.
  unfold SetNoteContent, exec_update. intros Hset.
  destruct (bad_number_dec id) as [Hid|Hid];
    [rewrite validate_int_bad in Hset by assumption; discriminate|].
  rewrite validate_int_ok in Hset by assumption.
  destruct (bad_length_dec content) as [Hc|Hc];
    [rewrite validate_string_bad in Hset by assumption; discriminate|].
  rewrite validate_string_ok in Hset by assumption. simpl in Hset.
  pose proof (rows_with_id_nonneg id t) as Hnn.
  destruct (Z.eqb_spec (rows_with_id id t) 0) as [Hz|Hz]; [discriminate|].
  destruct (Z.ltb_spec 0 (rows_with_id id t)); [|lia].
  injection Hset as <-. repeat split; assumption.
Qed.

(** C3, as stated, fails when the update runs in the clock second in which
    the note was last written: created at second 100 and updated at second
    100, the note keeps [lastEditedAt] 100. *)
Lemma C3_counterexample_same_second :
  NewNote env100 "T" "C" New = (Ok 1, one_note)
  /\ GetNoteByID 1 one_note = Ok (mkNote 1 "T" "C" 100 100)
  /\ SetNoteContent env100 1 "C2" one_note
     = (None, [mkNote 1 "T" "C2" 100 100])
  /\ GetNoteByID 1 [mkNote 1 "T" "C2" 100 100] = Ok (mkNote 1 "T" "C2" 100 100)
  /\ ~ (LastEditedAt (mkNote 1 "T" "C" 100 100)
        < LastEditedAt (mkNote 1 "T" "C2" 100 100)).
Proof.
  repeat split; try reflexivity. simpl. lia.
Qed.

(** C3 (amended): a successful [SetNoteContent(id, content)] at time
    [now] makes [GetNoteByID(id)] return the note it returned before with
    the new content and with [lastEditedAt] equal to [now], the clock
    second of the update; id, title and [createdAt] are unchanged, and so
    is every other note. Hence [lastEditedAt] is strictly beyond its
    prior value exactly when the clock second is, and not before it when
    the clock has not gone back. *)
Theorem C3_update_sets_content_and_time (e : Env) (id : Z) (content : string)
    (t t' : table) :
  SetNoteContent e id content t = (None, t') ->
  exists old new,
    GetNoteByID id t = Ok old
    /\ GetNoteByID id t' = Ok new
    /\ ID new = id /\ ID old = id
    /\ Content new = content
    /\ Title new = Title old
    /\ CreatedAt new = CreatedAt old
    /\ LastEditedAt new = now e
    /\ (LastEditedAt old < LastEditedAt new <-> LastEditedAt old < now e)
    /\ (LastEditedAt old <= now e -> LastEditedAt old <= LastEditedAt new)
    /\ (forall id', id' <> id -> GetNoteByID id' t' = GetNoteByID id' t).
Proof.
  intros Hset. apply SetNoteContent_success in Hset.
  destruct Hset as (Hid & Hcontent & Hrows & ->).
  destruct (select_by_id id t) as [old|] eqn:Hsel.
  - exists old, (updated e content old). unfold GetNoteByID.
    rewrite validate_int_ok by assumption. simpl. rewrite Hsel.
    rewrite (select_after_update e content id t old Hsel).
    pose proof (select_by_id_some id t old Hsel) as [_ Hold].
    repeat match goal with |- _ /\ _ => split end;
      try reflexivity; try assumption; try tauto.
    intros id' Hne.
    rewrite select_after_update_other by assumption. reflexivity.
  - exfalso.
    pose proof (proj2 (rows_with_id_zero id t) (proj1 (select_by_id_none id t) Hsel)).
    lia.
Qed.

Lemma C3_update_witness :
  exists old new,
    GetNoteByID 1 one_note = Ok old
    /\ GetNoteByID 1 [mkNote 1 "T" "C2" 100 105] = Ok new
    /\ Content new = "C2" /\ CreatedAt new = CreatedAt old
    /\ LastEditedAt new = 105.
Proof.
  destruct (C3_update_sets_content_and_time (mkEnv 105 (fun _ => 0)) 1 "C2"
              one_note [mkNote 1 "T" "C2" 100 105] eq_refl)
    as (old & new & Hbefore & Hafter & _ & _ & Hcontent & _ & Hcreated & Hedited & _).
  exists old, new. repeat split; assumption.
Defined.

(** ** Create, then read *)

(** From a table with the one note of id [n], the program reaches the
    table with the one note of id [n + 1]: it creates a note, then deletes
    note [n]. *)
Lemma reachable_next_single n :
  1 <= n <= MaxInt32 ->
  reachable [mkNote n "T" "C" 0 0] -> reachable [mkNote (n + 1) "T" "C" 0 0].
Proof.
  intros Hn Hreach.
  pose (e0 := mkEnv 0 (fun _ => 0)).
  assert (Hnew : snd (NewNote e0 "T" "C" [mkNote n "T" "C" 0 0])
                 = [mkNote n "T" "C" 0 0; mkNote (n + 1) "T" "C" 0 0]).
  { rewrite NewNote_ok.
    - unfold next_rowid. simpl.
      destruct (Z.ltb_spec (n + 1) n); [lia|reflexivity].
    - unfold bad_length, maxStringLength. vm_compute. intuition discriminate.
    - unfold bad_length, maxStringLength. vm_compute. intuition discriminate.
    - intros note [<-|[]]. simpl. unfold MaxInt32, MaxInt64 in *. lia. }
  assert (Hdel : snd (DeleteNote n [mkNote n "T" "C" 0 0; mkNote (n + 1) "T" "C" 0 0])
                 = [mkNote (n + 1) "T" "C" 0 0]).
  { unfold DeleteNote. rewrite validate_int_ok by (unfold bad_number; lia).
    unfold rows_with_id, delete_by_id. simpl. rewrite Z.eqb_refl.
    destruct (Z.eqb_spec (n + 1) n); [lia|]. simpl. reflexivity. }
  rewrite <- Hdel, <- Hnew.
  apply reach_DeleteNote, reach_NewNote. assumption.
Qed.

Lemma reachable_single n :
  1 <= n <= MaxInt32 + 1 -> reachable [mkNote n "T" "C" 0 0].
Proof.
  intros Hn. replace n with (Z.of_nat (Z.to_nat (n - 1)) + 1) by lia.
  assert (Hk : (Z.to_nat (n - 1) <= Z.to_nat MaxInt32)%nat) by lia.
  induction (Z.to_nat (n - 1)) as [|k IH].
  - exact (reach_NewNote (mkEnv 0 (fun _ => 0)) "T" "C" New reach_New).
  - replace (Z.of_nat (S k) + 1) with ((Z.of_nat k + 1) + 1) by lia.
    apply reachable_next_single; [unfold MaxInt32 in *; lia|].
    apply IH. lia.
Qed.

(** C4, as stated, fails past the bound of [validateSQLParam]: on a table
    the program can reach, [NewNote] returns id 2147483648, and
    [GetNoteByID] on that id fails with "invalid number". *)
Lemma C4_counterexample_id_beyond_MaxInt32 :
  reachable last_readable
  /\ NewNote env100 "T" "C" last_readable
     = (Ok 2147483648, last_readable ++ [mkNote 2147483648 "T" "C" 100 100])
  /\ GetNoteByID 2147483648
       (last_readable ++ [mkNote 2147483648 "T" "C" 100 100])
     = Err invalidNum.
Proof.
  split; [|split].
  - apply reachable_single. unfold MaxInt32. lia.
  - vm_compute. reflexivity.
  - vm_compute. reflexivity.
Qed.

(** C4 (amended): for every valid title T and content C, on a reachable
    table whose ids are all below 2^31-1, [NewNote(T, C)] returns a
    positive id, at most 2^31-1, and [GetNoteByID] on that id afterwards
    returns the note with that id, title T, content C and [createdAt]
    equal to [lastEditedAt]. *)
Theorem C4_create_then_get (e : Env) (T C : string) (t : table) :
  reachable t -> ~ bad_length T -> ~ bad_length C ->
  (forall note, In note t -> ID note < MaxInt32) ->
  exists id t',
    NewNote e T C t = (Ok id, t')
    /\ 0 < id <= MaxInt32
    /\ exists note,
         GetNoteByID id t' = Ok note
         /\ ID note = id /\ Title note = T /\ Content note = C
         /\ CreatedAt note = LastEditedAt note.
Proof.
  intros Hreach HT HC Hids.
  pose proof (reachable_stored_ok t Hreach) as Hok.
  rewrite Forall_forall in Hok.
  assert (Hrange : 0 < next_rowid t <= MaxInt32).
  { unfold next_rowid. destruct (max_rowid t) as [m|] eqn:Hmax.
    - destruct (max_rowid_attained t m Hmax) as (note & Hin & <-).
      specialize (Hids note Hin). destruct (Hok note Hin) as [Hid _]. lia.
    - unfold MaxInt32. lia. }
  assert (Hfree : forall note, In note t -> ID note <> next_rowid t).
  { unfold next_rowid. destruct (max_rowid t) as [m|] eqn:Hmax.
    - intros note Hin. pose proof (max_rowid_bound t m Hmax note Hin). lia.
    - apply max_rowid_none in Hmax. subst t. intros note []. }
  exists (next_rowid t).
  exists (insert_row (mkNote (next_rowid t) T C (now e) (now e)) t).
  split.
  - apply NewNote_ok; try assumption.
    intros note Hin. specialize (Hids note Hin). unfold MaxInt32, MaxInt64 in *. lia.
  - split; [assumption|].
    exists (mkNote (next_rowid t) T C (now e) (now e)).
    split; [|simpl; auto].
    unfold GetNoteByID.
    rewrite validate_int_ok by (unfold bad_number; lia). simpl.
    pose proof (select_after_insert (mkNote (next_rowid t) T C (now e) (now e)) t Hfree)
      as Hsel.
    simpl in Hsel. rewrite Hsel. reflexivity.
Qed.

Lemma C4_create_then_get_witness :
  exists id t',
    NewNote env100 "T2" "C2" one_note = (Ok id, t')
    /\ 0 < id <= MaxInt32
    /\ exists note,
         GetNoteByID id t' = Ok note
         /\ ID note = id /\ Title note = "T2" /\ Content note = "C2"
         /\ CreatedAt note = LastEditedAt note.
Proof.
  apply (C4_create_then_get env100 "T2" "C2" one_note one_note_reachable).
  - unfold bad_length, maxStringLength. vm_compute. intuition discriminate.
  - unfold bad_length, maxStringLength. vm_compute. intuition discriminate.
  - intros note [<-|[]]. vm_compute. reflexivity.
Defined.

(** ** Reuse of ids *)

(** C9, as stated, fails: on a new database [NewNote] returns 1,
    [DeleteNote(1)] succeeds, and the next [NewNote] returns 1 again. *)
Lemma C9_counterexample_id_reused :
  NewNote env100 "T" "C" New = (Ok 1, one_note)
  /\ DeleteNote 1 one_note = (Ok 1, New)
  /\ NewNote env100 "T2" "C2" New = (Ok 1, [mkNote 1 "T2" "C2" 100 100]).
Proof. repeat split. Qed.

(** C9 (amended): the id that [NewNote] returns is the id of no note
    stored at that moment: 1 on an empty table, else the largest stored id
    plus one while that id is below 2^63-1. Ids of deleted notes are not
    kept, so the id of a deleted note comes back once no note with that id
    or a larger one is stored. *)
Theorem C9_new_id_is_next_after_largest (e : Env) (title content : string)
    (t t' : table) (id : Z) :
  NewNote e title content t = (Ok id, t') ->
  (forall note, In note t -> ID note <> id)
  /\ (max_rowid t = None -> id = 1)
  /\ (forall m, max_rowid t = Some m -> m < MaxInt64 ->
        id = m + 1 /\ forall note, In note t -> ID note < id).
Proof.
  unfold NewNote. intros Hnew.
  destruct (validateSQLParam _) as [err|]; [discriminate|].
  destruct (new_rowid e t) as [id0|] eqn:Hid; [|discriminate].
  injection Hnew as <- <-.
  split; [apply (new_rowid_free e t id0 Hid)|].
  unfold new_rowid in Hid. split.
  - intros Hnone. rewrite Hnone in Hid. injection Hid as <-. reflexivity.
  - intros m Hmax Hm. rewrite Hmax in Hid.
    destruct (Z.ltb_spec m MaxInt64); [|lia].
    injection Hid as <-. split; [reflexivity|].
    intros note Hin. pose proof (max_rowid_bound t m Hmax note Hin). lia.
Qed.

Lemma C9_new_id_witness :
  2 = 1 + 1 /\ ID (mkNote 1 "T" "C" 100 100) <> 2.
Proof.
  destruct (C9_new_id_is_next_after_largest env100 "T2" "C2" one_note
              [mkNote 1 "T" "C" 100 100; mkNote 2 "T2" "C2" 100 100] 2 eq_refl)
    as (Hfree & _ & Hnext).
  split.
  - apply (Hnext 1 eq_refl). unfold MaxInt64. lia.
  - apply Hfree. left. reflexivity.
Defined.

(** ** The dispatcher and the exit code *)

Lemma Atoi_empty : strconv.Atoi EmptyString = Err (NumError EmptyString ErrSyntax).
Proof. reflexivity. Qed.

Lemma eqb_empty_false s : s <> EmptyString -> String.eqb s EmptyString = false.
Proof. intros Hs. apply String.eqb_neq. assumption. Qed.

(** *** Arguments that pass the flag parsing *)

Lemma no_dash_first a s : no_dash (String a s) -> Ascii.eqb a "-" = false.
Proof.
  unfold no_dash, cli.HasPrefixDash. cbn [String.prefix].
  destruct (ascii_dec "-" a) as [<-|Hne]; [destruct s; discriminate|].
  intros _. apply Ascii.eqb_neq. congruence.
Qed.

Lemma no_dash_not_terminator arg : no_dash arg -> String.eqb arg "--" = false.
Proof.
  destruct arg as [|a s]; [reflexivity|]. intros Harg.
  cbn [String.eqb]. rewrite (no_dash_first a s Harg). reflexivity.
Qed.

Lemma no_dash_isFlag arg : no_dash arg -> cli.isFlag arg = false.
Proof.
  intros Harg. unfold cli.isFlag. destruct (String.eqb arg "-"); [reflexivity|].
  unfold no_dash in Harg. rewrite Harg. reflexivity.
Qed.

Lemma reorder_no_dash args :
  Forall no_dash args -> cli.reorder false args = ([], args).
Proof.
  induction 1 as [|arg args Harg _ IH]; [reflexivity|].
  cbn [cli.reorder]. rewrite (no_dash_not_terminator arg Harg).
  cbn [andb]. rewrite (no_dash_isFlag arg Harg), IH. reflexivity.
Qed.

Lemma parseOne_no_dash arg : no_dash arg -> cli.parseOne arg = cli.NotAFlag.
Proof.
  destruct arg as [|a0 [|a1 s2]]; [reflexivity..|]. intros Harg.
  unfold cli.parseOne. rewrite (no_dash_first _ _ Harg). reflexivity.
Qed.

(** Arguments none of which starts with [-] are the arguments of the
    Action, with no flag set. *)
Lemma parseFlags_no_dash args :
  Forall no_dash args -> cli.parseFlags args = Ok (false, args).
Proof.
  intros Hargs. unfold cli.parseFlags, cli.reorderArgs.
  rewrite (reorder_no_dash args Hargs). cbn [app].
  destruct Hargs as [|arg args Harg _]; [reflexivity|].
  cbn [cli.Parse]. rewrite (parseOne_no_dash arg Harg). reflexivity.
Qed.

Lemma Run_no_dash {S : Type} {St : cli.Storage S} (timeString : Z -> string)
    (commandHelp : cli.Command -> string) (cmd : cli.Command)
    (args : list string) (st : S) :
  Forall no_dash args ->
  cli.Run timeString commandHelp cmd args st = cli.HandleAction timeString cmd args st.
Proof.
  intros Hargs. unfold cli.Run. rewrite (parseFlags_no_dash args Hargs). reflexivity.
Qed.

(** C7, as stated, fails in two ways. For [update] with an id that is no
    number and no content, the content is missing, and the command prints
    no prompt and returns the parse error of the id. And an argument that
    starts with [-] is read as a flag: [new -x] has no title, and the
    command is not reached; the run returns the error of the flag. *)
Lemma C7_counterexample_update_bad_id_no_content :
  cli.Get 1 ["abc"] = EmptyString
  /\ cli.Run (H := main.sqliteStorage env100) itoa help_text cli.cmdUpdate ["abc"] New
     = cli.mkOutcome EmptyString
         (Some (Errorf "invalid note ID: " (NumError "abc" ErrSyntax) EmptyString))
         New
  /\ main.stdout (main.main itoa help_text (Ok New) None env100 cli.cmdUpdate ["abc"])
     = "Error: invalid note ID: strconv.Atoi: parsing " +++ quote "abc"
       +++ ": invalid syntax" +++ cli.nl
  /\ cli.returned
       (cli.Run (H := main.sqliteStorage env100) itoa help_text cli.cmdNew ["-x"] New)
     = Some (ErrorNew "flag provided but not defined: -x").
Proof. repeat split. Qed.

(** C7 (amended): on a command line none of whose arguments starts with
    [-], for [new] and [search] a missing positional argument makes the
    command print a prompt and succeed, with no error and the store
    untouched; so does [update] for a missing id, and for a missing
    content when the id argument is a number (an id that is no number is
    reported first); for [delete] a missing id is a reported error. Once
    the storage is open the exit code of the process is 0 in each of
    these cases. *)
Theorem C7_missing_argument {S : Type} (St : cli.Storage S)
    (timeString : Z -> string) (commandHelp : cli.Command -> string)
    (args : list string) (st : S) :
  Forall no_dash args ->
  (cli.First args = EmptyString ->
     cli.Run timeString commandHelp cli.cmdNew args st
     = cli.mkOutcome (cli.Println "Please provide a title for new note.") None st)
  /\ (cli.First args <> EmptyString -> cli.Get 1 args = EmptyString ->
        cli.Run timeString commandHelp cli.cmdNew args st
        = cli.mkOutcome (cli.Println "Please provide content for new note.") None st)
  /\ (cli.First args = EmptyString ->
        cli.Run timeString commandHelp cli.cmdSearch args st
        = cli.mkOutcome (cli.Println "Please provide a keyword to search for notes.")
            None st)
  /\ (cli.First args = EmptyString ->
        cli.Run timeString commandHelp cli.cmdUpdate args st
        = cli.mkOutcome (cli.Println "Please provide ID of note to update.") None st)
  /\ (forall id, strconv.Atoi (cli.First args) = Ok id ->
        cli.Get 1 args = EmptyString ->
        cli.Run timeString commandHelp cli.cmdUpdate args st
        = cli.mkOutcome (cli.Println "Please provide content to update note.") None st)
  /\ (forall err, cli.First args <> EmptyString ->
        strconv.Atoi (cli.First args) = Err err ->
        cli.Run timeString commandHelp cli.cmdUpdate args st
        = cli.mkOutcome EmptyString (Some (Errorf "invalid note ID: " err EmptyString)) st)
  /\ (cli.First args = EmptyString ->
        cli.Run timeString commandHelp cli.cmdDelete args st
        = cli.mkOutcome EmptyString
            (Some (ErrorNew "please provide ID of note to delete")) st)
  /\ (forall t closed e cmd,
        main.exitCode (main.main timeString commandHelp (Ok t) closed e cmd args) = 0).
Proof.
  intros Hargs.
  repeat match goal with |- _ /\ _ => split end; [| | | | | | | reflexivity];
    intros; rewrite (Run_no_dash _ _ _ _ _ Hargs); unfold cli.HandleAction.
  - unfold cli.newNoteCommand.
    match goal with Hfirst : _ = EmptyString |- _ => rewrite Hfirst end. reflexivity.
  - unfold cli.newNoteCommand.
    match goal with
    | Hfirst : _ <> EmptyString, Hsecond : _ = EmptyString |- _ =>
        rewrite (eqb_empty_false _ Hfirst), Hsecond
    end. reflexivity.
  - unfold cli.searchNotesCommand.
    match goal with Hfirst : _ = EmptyString |- _ => rewrite Hfirst end. reflexivity.
  - unfold cli.updateNoteContentCommand.
    match goal with Hfirst : _ = EmptyString |- _ => rewrite Hfirst end. reflexivity.
  - unfold cli.updateNoteContentCommand.
    match goal with
    | Hid : strconv.Atoi _ = Ok _, Hsecond : _ = EmptyString |- _ =>
        assert (Hfirst : cli.First args <> EmptyString)
          by (intros Heq; rewrite Heq, Atoi_empty in Hid; discriminate);
        rewrite (eqb_empty_false _ Hfirst), Hid, Hsecond
    end. reflexivity.
  - unfold cli.updateNoteContentCommand.
    match goal with
    | Hfirst : _ <> EmptyString, Herr : strconv.Atoi _ = Err _ |- _ =>
        rewrite (eqb_empty_false _ Hfirst), Herr
    end. reflexivity.
  - unfold cli.deleteNoteCommand.
    match goal with Hfirst : _ = EmptyString |- _ => rewrite Hfirst end. reflexivity.
Qed.

Lemma C7_missing_argument_witness :
  cli.Run (H := main.sqliteStorage env100) itoa help_text cli.cmdNew ["T"] one_note
  = cli.mkOutcome (cli.Println "Please provide content for new note.") None one_note
  /\ cli.Run (H := main.sqliteStorage env100) itoa help_text cli.cmdUpdate ["1"] one_note
     = cli.mkOutcome (cli.Println "Please provide content to update note.") None one_note
  /\ cli.Run (H := main.sqliteStorage env100) itoa help_text cli.cmdDelete [] one_note
     = cli.mkOutcome EmptyString
         (Some (ErrorNew "please provide ID of note to delete")) one_note.
Proof.
  assert (HT : Forall no_dash ["T"]) by (repeat constructor).
  assert (H1 : Forall no_dash ["1"]) by (repeat constructor).
  destruct (C7_missing_argument (main.sqliteStorage env100) itoa help_text ["T"] one_note HT)
    as (_ & Hnew & _).
  destruct (C7_missing_argument (main.sqliteStorage env100) itoa help_text ["1"] one_note H1)
    as (_ & _ & _ & _ & Hupdate & _).
  destruct (C7_missing_argument (main.sqliteStorage env100) itoa help_text [] one_note
              (Forall_nil _))
    as (_ & _ & _ & _ & _ & _ & Hdelete & _).
  split; [|split].
  - apply Hnew; [discriminate|reflexivity].
  - apply (Hupdate 1); reflexivity.
  - apply Hdelete. reflexivity.
Defined.

Lemma append_empty_r s : s +++ EmptyString = s.
Proof. induction s as [|a s IH]; simpl; [reflexivity|]. rewrite IH. reflexivity. Qed.

(** C6, as stated, fails on both of its error paths. When the storage
    cannot be opened the exit code is 1, but the line printed starts with
    "Error initializing storage: ", not with "Error: ". When a command
    fails on the storage, here [delete 7] with no note 7, the line printed
    starts with "Error: ", but the exit code is 0. *)
Lemma C6_counterexample_exit_code_and_prefix :
  let p := main.main itoa help_text (Err (ErrorNew "unable to open database file"))
             None env100 cli.cmdList [] in
  let q := main.main itoa help_text (Ok New) None env100 cli.cmdDelete ["7"] in
  main.exitCode p = 1
  /\ main.stdout p
     = "Error initializing storage: unable to open database file" +++ cli.nl
  /\ String.prefix "Error: " (main.stdout p) = false
  /\ DeleteNote 7 New = (Err ErrNoRows, New)
  /\ main.stdout q
     = "Error: Error deleting note: sql: no rows in result set" +++ cli.nl +++ cli.nl
  /\ main.exitCode q = 0.
Proof. repeat split. Qed.

(** C6 (amended): when the storage cannot be opened, the process prints
    "Error initializing storage: " and the error, and exits with 1.
    Otherwise it runs the command: when the command returns no error, as
    on success and on a prompt for a missing argument, the exit code is 0
    and nothing is printed after the command's own output but a failure of
    closing; when the command returns an error, the process prints it on
    standard output after the prefix "Error: ". *)
Theorem C6_exit_code_and_report (timeString : Z -> string)
    (commandHelp : cli.Command -> string)
    (opened : result table) (closed : option error) (e : Env)
    (cmd : cli.Command) (args : list string) :
  let p := main.main timeString commandHelp opened closed e cmd args in
  (forall err, opened = Err err ->
     p = main.mkProcess
           ("Error initializing storage: " +++ Error err +++ cli.nl) 1 None)
  /\ (forall t, opened = Ok t ->
      let o := cli.Run (H := main.sqliteStorage e) timeString commandHelp cmd args t in
      (cli.returned o = None ->
         main.exitCode p = 0
         /\ (closed = None -> main.stdout p = cli.printed o))
      /\ (forall err, cli.returned o = Some err ->
            exists after,
              main.stdout p
              = cli.printed o +++ ("Error: " +++ Error err +++ cli.nl) +++ after)).
Proof.
  cbv zeta. split.
  - intros err ->. reflexivity.
  - intros t ->. unfold main.main. cbv zeta.
    destruct (cli.returned _) as [err|] eqn:Hret.
    + split; [discriminate|]. intros err' [= <-].
      eexists. cbn [main.stdout]. reflexivity.
    + split; [|discriminate]. intros _. split; [reflexivity|].
      intros ->. cbn [main.stdout String.append]. rewrite append_empty_r.
      reflexivity.
Qed.

Lemma C6_exit_code_witness :
  main.main itoa help_text (Err SQLITE_FULL) None env100 cli.cmdList []
  = main.mkProcess ("Error initializing storage: database or disk is full" +++ cli.nl)
      1 None
  /\ main.exitCode (main.main itoa help_text (Ok one_note) None env100 cli.cmdNew ["T"])
     = 0.
Proof.
  pose proof (C6_exit_code_and_report itoa help_text (Err SQLITE_FULL) None env100
                cli.cmdList [])
    as [Hinit _].
  pose proof (C6_exit_code_and_report itoa help_text (Ok one_note) None env100
                cli.cmdNew ["T"])
    as [_ Hrun].
  split.
  - apply (Hinit SQLITE_FULL). reflexivity.
  - apply (Hrun one_note eq_refl). reflexivity.
Defined.

(** ** LIKE *)

Lemma byte_val_range a : is_byte (byte_val a).
Proof.
  unfold is_byte, byte_val.
  pose proof (N_ascii_bounded a) as Hb. lia.
Qed.

Lemma bytes_range s : Forall is_byte (bytes s).
Proof.
  induction s as [|a s IH]; simpl; constructor; auto using byte_val_range.
Qed.

Lemma bytes_app s1 s2 : bytes (s1 +++ s2) = bytes s1 ++ bytes s2.
Proof. induction s1 as [|a s1 IH]; simpl; [reflexivity|]. rewrite IH. reflexivity. Qed.

Lemma bytes_length s : Z.of_nat (List.length (bytes s)) = len s.
Proof.
  unfold len. induction s as [|a s IH]; [reflexivity|].
  cbn [bytes List.length String.length]. lia.
Qed.

Lemma cstring_no_nul b : Forall (fun x => x <> 0) b -> cstring b = b.
Proof.
  induction 1 as [|x b Hx _ IH]; simpl; [reflexivity|].
  destruct (Z.eqb_spec x 0); [contradiction|]. rewrite IH. reflexivity.
Qed.

Lemma cstring_range b : Forall is_byte b -> Forall is_byte (cstring b).
Proof.
  induction 1 as [|x b Hx _ IH]; simpl; [constructor|].
  destruct (x =? 0); constructor; assumption.
Qed.

Lemma continuation_high x : is_byte x -> is_continuation x = true -> 128 <= x.
Proof.
  unfold is_byte, is_continuation. intros Hx Hc. apply Z.eqb_eq in Hc.
  destruct (Z_lt_dec x 128) as [Hlt|]; [|lia]. exfalso.
  assert (Hbit : Z.testbit (Z.land x 0xc0) 7 = true) by (rewrite Hc; reflexivity).
  rewrite Z.land_spec in Hbit. apply andb_true_iff in Hbit. destruct Hbit as [Hbit _].
  destruct (Z.eq_dec x 0) as [->|Hnz]; [discriminate|].
  rewrite Z.bits_above_log2 in Hbit; [discriminate|lia|].
  apply Z.log2_lt_pow2; lia.
Qed.

Lemma ascii_not_continuation x : 0 <= x < 128 -> is_continuation x = false.
Proof.
  intros Hx. destruct (is_continuation x) eqn:Hc; [|reflexivity].
  apply continuation_high in Hc; [lia|unfold is_byte; lia].
Qed.

(** *** Reading characters *)

Lemma utf8_continue_split c b :
  exists skipped,
    b = skipped ++ snd (utf8_continue c b)
    /\ Forall (fun x => is_continuation x = true) skipped.
Proof.
  revert c. induction b as [|x b IH]; intros c; simpl.
  - exists []. split; [reflexivity|constructor].
  - destruct (is_continuation x) eqn:Hx.
    + destruct (IH ((Z.shiftl c 6 + Z.land 63 x) mod 2 ^ 32)) as (sk & Hb & Hsk).
      exists (x :: sk). split.
      * simpl. f_equal. exact Hb.
      * constructor; assumption.
    + exists []. split; [reflexivity|constructor].
Qed.

Lemma utf8_continue_app c b a r :
  is_continuation a = false ->
  utf8_continue c (b ++ a :: r)
  = (fst (utf8_continue c b), snd (utf8_continue c b) ++ a :: r).
Proof.
  intros Ha. revert c. induction b as [|x b IH]; intros c; simpl.
  - rewrite Ha. reflexivity.
  - destruct (is_continuation x); [apply IH|reflexivity].
Qed.

Lemma Utf8Read_split x b :
  exists skipped,
    b = skipped ++ snd (sqlite3Utf8Read x b)
    /\ Forall (fun y => is_continuation y = true) skipped.
Proof.
  unfold sqlite3Utf8Read. destruct (x <? 192).
  - exists []. split; [reflexivity|constructor].
  - destruct (utf8_continue_split (nth (Z.to_nat (x - 192)) sqlite3Utf8Trans1 0) b)
      as (sk & Hb & Hsk).
    exists sk. split; [|assumption].
    destruct (utf8_continue _ b) as [c rest]. simpl in Hb.
    destruct ((c <? 128) || _ || _); exact Hb.
Qed.

Lemma Utf8Read_app x b a r :
  is_continuation a = false ->
  sqlite3Utf8Read x (b ++ a :: r)
  = (fst (sqlite3Utf8Read x b), snd (sqlite3Utf8Read x b) ++ a :: r).
Proof.
  intros Ha. unfold sqlite3Utf8Read. destruct (x <? 192); [reflexivity|].
  rewrite utf8_continue_app by assumption.
  destruct (utf8_continue _ b) as [c rest]. simpl.
  destruct ((c <? 128) || _ || _); reflexivity.
Qed.

Lemma Utf8Read_ascii x b : x < 128 -> sqlite3Utf8Read x b = (x, b).
Proof.
  intros Hx. unfold sqlite3Utf8Read.
  destruct (Z.ltb_spec x 192); [reflexivity|lia].
Qed.

(** A character read is the byte itself, or is not ASCII. *)
Lemma Utf8Read_char x b :
  fst (sqlite3Utf8Read x b) = x \/ 128 <= fst (sqlite3Utf8Read x b).
Proof.
  unfold sqlite3Utf8Read. destruct (x <? 192); [left; reflexivity|].
  destruct (utf8_continue _ b) as [c rest].
  destruct (Z.ltb_spec c 128); simpl; [right; lia|].
  destruct ((Z.land c 4294965248 =? 55296) || (Z.land c 4294967294 =? 65534));
    simpl; right; lia.
Qed.

Lemma Utf8Read_shorter x b :
  (List.length (snd (sqlite3Utf8Read x b)) <= List.length b)%nat.
Proof.
  destruct (Utf8Read_split x b) as (sk & Hb & _).
  rewrite Hb at 2. rewrite length_app. lia.
Qed.

Lemma utf8_chars_upto_enough f1 : forall f2 b,
  (List.length b <= f1)%nat -> (List.length b <= f2)%nat ->
  utf8_chars_upto f1 b = utf8_chars_upto f2 b.
Proof.
  induction f1 as [|f1 IH]; intros f2 b H1 H2.
  - destruct b; [|simpl in H1; lia]. destruct f2; reflexivity.
  - destruct b as [|x b]; [destruct f2; reflexivity|].
    destruct f2 as [|f2]; [simpl in H2; lia|]. simpl in *.
    pose proof (Utf8Read_shorter x b) as Hs.
    destruct (sqlite3Utf8Read x b) as [c rest]. simpl in Hs.
    f_equal. apply IH; lia.
Qed.

(** The equation of [utf8_chars]. *)
Lemma utf8_chars_cons x b :
  utf8_chars (x :: b)
  = fst (sqlite3Utf8Read x b) :: utf8_chars (snd (sqlite3Utf8Read x b)).
Proof.
  unfold utf8_chars. simpl.
  pose proof (Utf8Read_shorter x b) as Hs.
  destruct (sqlite3Utf8Read x b) as [c rest]. simpl in *.
  f_equal. apply utf8_chars_upto_enough; lia.
Qed.

Lemma utf8_chars_nil : utf8_chars [] = [].
Proof. reflexivity. Qed.

Lemma utf8_chars_ascii_cons x b : x < 128 -> utf8_chars (x :: b) = x :: utf8_chars b.
Proof. intros Hx. rewrite utf8_chars_cons, Utf8Read_ascii by assumption. reflexivity. Qed.

(** A byte that continues no character ends the character before it. *)
Lemma utf8_chars_app p a r :
  is_continuation a = false ->
  utf8_chars (p ++ a :: r) = utf8_chars p ++ utf8_chars (a :: r).
Proof.
  intros Ha. remember (List.length p) as n eqn:Hn.
  assert (Hle : (List.length p <= n)%nat) by lia. clear Hn.
  revert p Hle. induction n as [|n IH]; intros p Hle.
  - destruct p; [reflexivity|simpl in Hle; lia].
  - destruct p as [|x p]; [reflexivity|].
    cbn [app]. rewrite !(utf8_chars_cons x).
    rewrite Utf8Read_app by assumption. cbn [fst snd app].
    pose proof (Utf8Read_shorter x p) as Hs. cbn [List.length] in Hle.
    apply Nat.succ_le_mono in Hle.
    rewrite (IH (snd (sqlite3Utf8Read x p)) (Nat.le_trans _ _ _ Hs Hle)).
    reflexivity.
Qed.

Lemma utf8_chars_In c b : In c (utf8_chars b) -> In c b \/ 128 <= c.
Proof.
  remember (List.length b) as n eqn:Hn.
  assert (Hle : (List.length b <= n)%nat) by lia. clear Hn.
  revert b Hle. induction n as [|n IH]; intros b Hle Hin.
  - destruct b; [contradiction|simpl in Hle; lia].
  - destruct b as [|x b]; [contradiction|].
    rewrite utf8_chars_cons in Hin. destruct Hin as [<-|Hin].
    + destruct (Utf8Read_char x b) as [->|Hhigh]; [left; left; reflexivity|right; assumption].
    + pose proof (Utf8Read_shorter x b) as Hs. cbn [List.length] in Hle.
      apply Nat.succ_le_mono in Hle.
      destruct (IH _ (Nat.le_trans _ _ _ Hs Hle) Hin) as [Hb|Hhigh];
        [|right; assumption].
      left. right. destruct (Utf8Read_split x b) as (sk & Hsplit & _).
      rewrite Hsplit. apply in_or_app. right. assumption.
Qed.

(** *** Patterns *)

Lemma patternCompare_star p s :
  patternCompare (matchAll :: p) s
  = patternCompare p s
    || match s with [] => false | _ :: s' => patternCompare (matchAll :: p) s' end.
Proof. destruct s; reflexivity. Qed.

Lemma patternCompare_one p s :
  patternCompare (matchOne :: p) s
  = match s with [] => false | _ :: s' => patternCompare p s' end.
Proof. destruct s; reflexivity. Qed.

Lemma patternCompare_char c p s :
  c <> matchAll -> c <> matchOne ->
  patternCompare (c :: p) s
  = match s with [] => false | c2 :: s' => char_eq c c2 && patternCompare p s' end.
Proof.
  intros Hall Hone. cbn [patternCompare].
  destruct (Z.eqb_spec c matchAll); [contradiction|].
  destruct (Z.eqb_spec c matchOne); [contradiction|]. reflexivity.
Qed.

Lemma patternCompare_any s : patternCompare [matchAll] s = true.
Proof.
  induction s as [|c s IH]; [reflexivity|].
  rewrite patternCompare_star. rewrite IH. apply orb_true_r.
Qed.

Lemma patternCompare_any_then p :
  (forall s, patternCompare p s = true) ->
  forall s, patternCompare (matchAll :: p) s = true.
Proof. intros Hp s. rewrite patternCompare_star, Hp. reflexivity. Qed.

Lemma patternCompare_plain_prefix k s :
  Forall plain_char k -> patternCompare (k ++ [matchAll]) s = starts_with k s.
Proof.
  intros Hk. revert s. induction Hk as [|c k [Hall Hone] _ IH]; intros s.
  - apply patternCompare_any.
  - cbn [app]. rewrite patternCompare_char by assumption.
    destruct s as [|c2 s]; [reflexivity|]. rewrite IH. reflexivity.
Qed.

(** The pattern [%k%], [k] without wildcards, matches the texts in which
    [k] occurs. *)
Lemma patternCompare_occurs k s :
  Forall plain_char k ->
  patternCompare (matchAll :: k ++ [matchAll]) s = occurs k s.
Proof.
  intros Hk. induction s as [|c s IH].
  - rewrite patternCompare_star, patternCompare_plain_prefix by assumption.
    reflexivity.
  - rewrite patternCompare_star, patternCompare_plain_prefix by assumption.
    rewrite IH. reflexivity.
Qed.

(** *** Search *)

Lemma len_app s1 s2 : len (s1 +++ s2) = len s1 + len s2.
Proof. rewrite <- !bytes_length, bytes_app, length_app. lia. Qed.

Lemma pattern_len keyword : len ("%" +++ keyword +++ "%") = len keyword + 2.
Proof. rewrite !len_app. change (len "%") with 1. lia. Qed.

Lemma rows_like_filter pattern t :
  len pattern <= SQLITE_MAX_LIKE_PATTERN_LENGTH ->
  rows_like pattern t
  = filter (fun r =>
      patternCompare (utf8_chars (cstring (bytes pattern)))
                     (utf8_chars (cstring (bytes (Title r))))
      || patternCompare (utf8_chars (cstring (bytes pattern)))
                        (utf8_chars (cstring (bytes (Content r))))) t.
Proof.
  intros Hlen. induction t as [|r t IH]; [reflexivity|].
  cbn [rows_like filter]. unfold like.
  destruct (Z.gtb_spec (len pattern) SQLITE_MAX_LIKE_PATTERN_LENGTH); [lia|].
  rewrite IH. reflexivity.
Qed.

Lemma pattern_chars keyword :
  plain_keyword keyword ->
  utf8_chars (cstring (bytes ("%" +++ keyword +++ "%")))
  = matchAll :: utf8_chars (bytes keyword) ++ [matchAll].
Proof.
  intros Hk. rewrite !bytes_app. change (bytes "%") with [matchAll].
  rewrite cstring_no_nul.
  - cbn [app]. rewrite utf8_chars_ascii_cons by (unfold matchAll; lia).
    rewrite utf8_chars_app by reflexivity. reflexivity.
  - cbn [app]. constructor; [discriminate|].
    apply Forall_app. split.
    + eapply Forall_impl; [|exact Hk]. intros x Hx. apply Hx.
    + constructor; [discriminate|constructor].
Qed.

Lemma keyword_chars_plain keyword :
  plain_keyword keyword -> Forall plain_char (utf8_chars (bytes keyword)).
Proof.
  intros Hk. apply Forall_forall. intros c Hin.
  apply utf8_chars_In in Hin. destruct Hin as [Hin|Hhigh].
  - unfold plain_keyword in Hk. rewrite Forall_forall in Hk.
    destruct (Hk c Hin) as (_ & Hall & Hone). split; assumption.
  - unfold plain_char, matchAll, matchOne. lia.
Qed.

(** A search with a keyword that has no wildcard, within the limit of
    LIKE: the notes in whose title or content the keyword occurs. *)
Lemma Search_plain keyword t :
  ~ bad_length keyword -> within_like_limit keyword -> plain_keyword keyword ->
  SearchNotesByKeyword keyword t
  = Ok (filter (fun note => occurs_in keyword (Title note)
                            || occurs_in keyword (Content note)) t).
Proof.
  intros Hvalid Hlimit Hplain. unfold SearchNotesByKeyword.
  rewrite validate_string_ok by assumption. cbn [validateSQLParam].
  rewrite rows_like_filter by (rewrite pattern_len; exact Hlimit).
  rewrite pattern_chars by assumption. f_equal.
  apply filter_ext. intros note. unfold occurs_in.
  rewrite !patternCompare_occurs by (apply keyword_chars_plain; assumption).
  reflexivity.
Qed.

(** *** ASCII keywords: characters and bytes agree *)

Lemma Tolower_ascii c : 0 <= c < 128 -> 0 <= sqlite3Tolower c < 128.
Proof.
  intros Hc. unfold sqlite3Tolower.
  destruct (Z.leb_spec 65 c); destruct (Z.leb_spec c 90); simpl; lia.
Qed.

Lemma Tolower_high c : 128 <= c -> sqlite3Tolower c = c.
Proof.
  intros Hc. unfold sqlite3Tolower.
  destruct (Z.leb_spec 65 c); destruct (Z.leb_spec c 90); simpl; lia.
Qed.

Lemma char_eq_ascii c x :
  0 <= c < 128 -> 0 <= x < 128 ->
  char_eq c x = (sqlite3Tolower c =? sqlite3Tolower x).
Proof.
  intros Hc Hx. unfold char_eq.
  destruct (Z.ltb_spec c 128); [|lia]. destruct (Z.ltb_spec x 128); [|lia].
  rewrite !andb_true_r. destruct (Z.eqb_spec c x) as [->|Hne]; [|reflexivity].
  rewrite Z.eqb_refl. reflexivity.
Qed.

Lemma char_eq_high c x : 0 <= c < 128 -> 128 <= x -> char_eq c x = false.
Proof.
  intros Hc Hx. unfold char_eq.
  destruct (Z.eqb_spec c x); [lia|]. destruct (Z.ltb_spec x 128); [lia|].
  rewrite andb_false_r. reflexivity.
Qed.

Lemma Utf8Read_high x b : 128 <= x -> 128 <= fst (sqlite3Utf8Read x b).
Proof.
  intros Hx. destruct (Utf8Read_char x b) as [->|Hhigh]; assumption.
Qed.

Lemma starts_with_bytes k s :
  Forall (fun c => 0 <= c < 128) k -> Forall is_byte s ->
  starts_with k (utf8_chars s) = has_prefix (fold_case k) (fold_case s).
Proof.
  intros Hk. revert s. induction Hk as [|c k Hc _ IH]; intros s Hs.
  - destruct (utf8_chars s); reflexivity.
  - destruct Hs as [|x s Hx Hs]; [reflexivity|].
    cbn [fold_case map has_prefix]. fold (fold_case k). fold (fold_case s).
    destruct (Z_lt_dec x 128) as [Hlow|Hhigh].
    + rewrite utf8_chars_ascii_cons by assumption. cbn [starts_with].
      unfold is_byte in Hx. rewrite char_eq_ascii by lia.
      rewrite IH by assumption. reflexivity.
    + rewrite utf8_chars_cons. cbn [starts_with].
      rewrite char_eq_high by (try apply Utf8Read_high; lia).
      pose proof (Tolower_ascii c Hc). rewrite (Tolower_high x) by lia.
      destruct (Z.eqb_spec (sqlite3Tolower c) x); [lia|]. reflexivity.
Qed.

Lemma contains_skip_high K sk r :
  Forall (fun y => 128 <= y) sk ->
  (exists c K', K = c :: K' /\ 0 <= c < 128) ->
  contains K (fold_case (sk ++ r)) = contains K (fold_case r).
Proof.
  intros Hsk (c & K' & -> & Hc). induction Hsk as [|y sk Hy _ IH]; [reflexivity|].
  cbn [app fold_case map contains has_prefix]. fold (fold_case (sk ++ r)).
  rewrite (Tolower_high y) by assumption.
  destruct (Z.eqb_spec c y); [lia|]. cbn [andb orb]. exact IH.
Qed.

Lemma occurs_bytes c k s :
  Forall (fun c => 0 <= c < 128) (c :: k) -> Forall is_byte s ->
  occurs (c :: k) (utf8_chars s) = contains (fold_case (c :: k)) (fold_case s).
Proof.
  intros Hk. remember (List.length s) as n eqn:Hn.
  assert (Hle : (List.length s <= n)%nat) by lia. clear Hn.
  revert s Hle. induction n as [|n IH]; intros s Hle Hs.
  - destruct s; [reflexivity|simpl in Hle; lia].
  - destruct Hs as [|x s Hx Hs]; [reflexivity|].
    pose proof (starts_with_bytes (c :: k) (x :: s) Hk (Forall_cons x Hx Hs)) as Hfront.
    rewrite utf8_chars_cons in Hfront |- *.
    cbn [occurs]. rewrite Hfront.
    change (fold_case (x :: s)) with (sqlite3Tolower x :: fold_case s).
    cbn [contains]. f_equal.
    destruct (Utf8Read_split x s) as (sk & Hsplit & Hsk).
    pose proof (Utf8Read_shorter x s) as Hshort.
    cbn [List.length] in Hle. apply Nat.succ_le_mono in Hle.
    assert (Hparts : Forall is_byte sk /\ Forall is_byte (snd (sqlite3Utf8Read x s))).
    { apply Forall_app. rewrite <- Hsplit. assumption. }
    destruct Hparts as [Hbsk Hbrest].
    rewrite (IH _ (Nat.le_trans _ _ _ Hshort Hle) Hbrest).
    rewrite Hsplit at 2. symmetry. apply contains_skip_high.
    + rewrite Forall_forall in *. intros y Hy.
      apply continuation_high; auto.
    + inversion Hk as [|? ? Hc _]; subst.
      exists (sqlite3Tolower c), (fold_case k). split; [reflexivity|].
      apply Tolower_ascii. assumption.
Qed.

(** For an ASCII keyword, to occur in a text is to be a substring of it up
    to the case of ASCII letters. *)
Lemma occurs_in_ascii keyword text :
  ascii_keyword keyword -> keyword <> EmptyString ->
  occurs_in keyword text = ContainsFold keyword text.
Proof.
  intros Hascii Hne. unfold occurs_in, ContainsFold.
  assert (Hk : Forall (fun c => 0 <= c < 128) (bytes keyword)).
  { pose proof (bytes_range keyword) as Hb. unfold ascii_keyword in Hascii.
    rewrite Forall_forall in *. intros c Hin.
    specialize (Hb c Hin). specialize (Hascii c Hin). unfold is_byte in Hb. lia. }
  assert (Hchars : utf8_chars (bytes keyword) = bytes keyword).
  { clear Hne Hascii. induction Hk as [|c k Hc _ IH]; [reflexivity|].
    rewrite utf8_chars_ascii_cons by lia. rewrite IH. reflexivity. }
  rewrite Hchars. destruct keyword as [|a keyword]; [contradiction|].
  cbn [bytes] in *. apply occurs_bytes; [assumption|].
  apply cstring_range, bytes_range.
Qed.

(** C1, as stated, fails in four ways. The match ignores the case of
    ASCII letters: "KEYWORD" finds the note that has "keyword" and has
    "KEYWORD" nowhere. ['_'] and ['%'] in the keyword are wildcards:
    "f_rst" finds the note that has "first" and has "f_rst" nowhere. A
    valid keyword of 49999 bytes finds nothing, not even the note whose
    content is that keyword. And a keyword is read up to its first NUL
    byte: [nul_keyword], "note." then NUL then "x", finds the note that
    ends in "note." and has no NUL byte. *)
Lemma C1_counterexample_case_wildcard_length :
  (SearchNotesByKeyword "KEYWORD" [note1; note2] = Ok [note2]
   /\ Contains "KEYWORD" (Title note2) = false
   /\ Contains "KEYWORD" (Content note2) = false)
  /\ (SearchNotesByKeyword "f_rst" [note1; note2] = Ok [note1]
      /\ Contains "f_rst" (Title note1) = false
      /\ Contains "f_rst" (Content note1) = false)
  /\ (validateSQLParam [StringParam long_keyword] = None
      /\ SearchNotesByKeyword long_keyword [mkNote 1 "T" long_keyword 100 100] = Ok []
      /\ Contains long_keyword long_keyword = true)
  /\ (SearchNotesByKeyword nul_keyword [note1; note2] = Ok [note1]
      /\ Contains nul_keyword (Title note1) = false
      /\ Contains nul_keyword (Content note1) = false).
Proof.
  split; [|split; [|split]]; repeat split; vm_compute; reflexivity.
Qed.

(** C1 (amended): for every stored set of notes and every valid keyword
    of at most 49998 bytes with no ['%'], no ['_'] and no NUL byte in it,
    [SearchNotesByKeyword] returns, in the order of their ids and with no
    error even when there are none, exactly the notes in whose title or
    content the keyword occurs when ASCII letters are compared without
    their case (both are read as UTF-8 text, the title and the content up
    to their first NUL byte); for an ASCII keyword these are the notes
    whose title or content has the keyword as a substring once the ASCII
    capitals of both are made small. *)
Theorem C1_search_finds_keyword_ignoring_ascii_case (t : table) (keyword : string) :
  ~ bad_length keyword -> within_like_limit keyword -> plain_keyword keyword ->
  let found := filter (fun note => occurs_in keyword (Title note)
                                   || occurs_in keyword (Content note)) t in
  SearchNotesByKeyword keyword t = Ok found
  /\ (forall note, In note found <->
        In note t /\ (occurs_in keyword (Title note) = true
                      \/ occurs_in keyword (Content note) = true))
  /\ (ascii_keyword keyword ->
      found = filter (fun note => ContainsFold keyword (Title note)
                                  || ContainsFold keyword (Content note)) t).
Proof.
  intros Hvalid Hlimit Hplain found. split; [|split].
  - apply Search_plain; assumption.
  - intros note. unfold found. rewrite filter_In, orb_true_iff. reflexivity.
  - intros Hascii. unfold found. apply filter_ext. intros note.
    assert (Hne : keyword <> EmptyString).
    { intros ->. apply Hvalid. left. vm_compute. reflexivity. }
    rewrite !occurs_in_ascii by assumption. reflexivity.
Qed.

Lemma C1_search_witness :
  SearchNotesByKeyword "Keyword" [note1; note2] = Ok [note2].
Proof.
  assert (Hvalid : ~ bad_length "Keyword")
    by (unfold bad_length, maxStringLength; vm_compute; intuition discriminate).
  assert (Hlimit : within_like_limit "Keyword")
    by (unfold within_like_limit; vm_compute; discriminate).
  assert (Hplain : plain_keyword "Keyword")
    by (unfold plain_keyword; simpl; repeat constructor; discriminate).
  exact (proj1 (C1_search_finds_keyword_ignoring_ascii_case [note1; note2] "Keyword"
                  Hvalid Hlimit Hplain)).
Defined.

(** ** Wildcards *)

Lemma filter_all {A : Type} (f : A -> bool) (l : list A) :
  (forall x, f x = true) -> filter f l = l.
Proof.
  intros Hf. induction l as [|x l IH]; simpl; [reflexivity|].
  rewrite Hf, IH. reflexivity.
Qed.

(** C10: the keyword goes into the LIKE pattern ["%" + keyword + "%"],
    matched against title and content, so ['%'] and ['_'] in it are
    wildcards: the keyword "%" returns every note of every database, and
    ['_'] stands for any one character, as "f_rst" finding "first"
    shows. *)
Theorem C10_keyword_is_a_like_pattern (t : table) :
  (forall keyword, ~ bad_length keyword ->
     SearchNotesByKeyword keyword t = Ok (rows_like ("%" +++ keyword +++ "%") t))
  /\ SearchNotesByKeyword "%" t = Ok t
  /\ (forall text, like "%%%" text = Some true)
  /\ (forall p c s, patternCompare (matchOne :: p) (c :: s) = patternCompare p s)
  /\ (SearchNotesByKeyword "f_rst" [note1; note2] = Ok [note1]
      /\ Contains "f_rst" (Title note1) = false
      /\ Contains "f_rst" (Content note1) = false).
Proof.
  assert (Hany : forall s, patternCompare [matchAll; matchAll; matchAll] s = true).
  { apply patternCompare_any_then, patternCompare_any_then, patternCompare_any. }
  split; [|split; [|split; [|split]]].
  - intros keyword Hvalid. unfold SearchNotesByKeyword.
    rewrite validate_string_ok by assumption. reflexivity.
  - unfold SearchNotesByKeyword. cbn [validateSQLParam].
    change (len "%") with 1. cbn.
    change ("%" +++ "%" +++ "%") with "%%%".
    rewrite rows_like_filter by (vm_compute; discriminate).
    f_equal. apply filter_all. intros note.
    change (utf8_chars (cstring (bytes "%%%"))) with [matchAll; matchAll; matchAll].
    rewrite Hany. reflexivity.
  - intros text. unfold like. change (len "%%%") with 3. cbn.
    change (utf8_chars (cstring (bytes "%%%"))) with [matchAll; matchAll; matchAll].
    rewrite Hany. reflexivity.
  - intros p c s. reflexivity.
  - repeat split; vm_compute; reflexivity.
Qed.

(** * Further properties of the storage *)

(** ** The order of the rows *)

Lemma insert_row_increasing n t :
  ids_increasing t -> (forall note, In note t -> ID note <> ID n) ->
  ids_increasing (insert_row n t).
Proof.
  unfold ids_increasing. intros Hs Hfree.
  induction Hs as [|r t Hs IH Hr]; simpl.
  - constructor; constructor.
  - destruct (Z.ltb_spec (ID n) (ID r)) as [Hlt|Hge].
    + constructor; [constructor; assumption|].
      constructor; [assumption|].
      rewrite Forall_forall in *. intros x Hx. specialize (Hr x Hx). lia.
    + constructor.
      * apply IH. intros note Hin. apply Hfree. right. assumption.
      * rewrite Forall_forall in *. intros x Hx.
        apply insert_row_In in Hx. destruct Hx as [->|Hx]; [|auto].
        assert (ID r <> ID n) by (apply Hfree; left; reflexivity). lia.
Qed.

Lemma filter_increasing (f : Note -> bool) t :
  ids_increasing t -> ids_increasing (filter f t).
Proof.
  unfold ids_increasing. induction 1 as [|r t Hs IH Hr]; simpl.
  - constructor.
  - destruct (f r); [|assumption]. constructor; [assumption|].
    rewrite Forall_forall in *. intros x Hx. apply filter_In in Hx. apply Hr, Hx.
Qed.

Lemma map_increasing (f : Note -> Note) t :
  (forall r, ID (f r) = ID r) -> ids_increasing t -> ids_increasing (map f t).
Proof.
  unfold ids_increasing. intros Hf. induction 1 as [|r t Hs IH Hr]; simpl.
  - constructor.
  - constructor; [assumption|].
    rewrite Forall_forall in *. intros x Hx. apply in_map_iff in Hx.
    destruct Hx as (y & <- & Hy). rewrite !Hf. apply Hr, Hy.
Qed.

Lemma set_content_ID content id r :
  ID (if ID r =? id
      then mkNote (ID r) (Title r) content (CreatedAt r) (LastEditedAt r)
      else r) = ID r.
Proof. destruct (ID r =? id); reflexivity. Qed.

Lemma trigger_ID e id r :
  ID (if ID r =? id
      then mkNote (ID r) (Title r) (Content r) (CreatedAt r) (now e)
      else r) = ID r.
Proof. destruct (ID r =? id); reflexivity. Qed.

Lemma NewNote_increasing e title content t :
  ids_increasing t -> ids_increasing (snd (NewNote e title content t)).
Proof.
  intros Hs. unfold NewNote.
  destruct (validateSQLParam _); [assumption|].
  destruct (new_rowid e t) as [id|] eqn:Hid; [|assumption]. simpl.
  apply insert_row_increasing; [assumption|].
  simpl. apply (new_rowid_free e t id Hid).
Qed.

Lemma DeleteNote_increasing id t :
  ids_increasing t -> ids_increasing (snd (DeleteNote id t)).
Proof.
  intros Hs. unfold DeleteNote.
  destruct (validateSQLParam _); [assumption|]. simpl.
  destruct (rows_with_id id t =? 0); apply filter_increasing; assumption.
Qed.

Lemma SetNoteContent_increasing e id content t :
  ids_increasing t -> ids_increasing (snd (SetNoteContent e id content t)).
Proof.
  intros Hs. unfold SetNoteContent, exec_update.
  destruct (validateSQLParam _); [assumption|].
  assert (H1 : ids_increasing (set_content content id t)).
  { apply map_increasing; [|assumption]. intros r. apply set_content_ID. }
  assert (H2 : ids_increasing (update_last_edited_at e id (set_content content id t))).
  { apply map_increasing; [|assumption]. intros r. apply trigger_ID. }
  destruct (0 <? rows_with_id id t); simpl;
    destruct (rows_with_id id t =? 0); assumption.
Qed.

Lemma reachable_increasing t : reachable t -> ids_increasing t.
Proof.
  induction 1.
  - constructor.
  - apply NewNote_increasing. assumption.
  - apply DeleteNote_increasing. assumption.
  - apply SetNoteContent_increasing. assumption.
Qed.

(** X1: every table the program builds keeps its rows in strictly
    increasing order of id, so no two stored notes share an id; and every
    stored note has an id in [1, 2^63-1], a title and a content of 1 to
    256000 bytes. *)
Theorem reachable_table_invariant (t : table) :
  reachable t ->
  ids_increasing t
  /\ NoDup (ids t)
  /\ (forall note, In note t ->
        1 <= ID note <= MaxInt64
        /\ 1 <= len (Title note) <= maxStringLength
        /\ 1 <= len (Content note) <= maxStringLength).
Proof.
  intros Hreach.
  pose proof (reachable_increasing t Hreach) as Hs.
  split; [assumption|]. split.
  - unfold ids, ids_increasing in *. clear Hreach.
    induction Hs as [|r t Hs IH Hr]; simpl; constructor; [|assumption].
    intros Hin. apply in_map_iff in Hin. destruct Hin as (x & Heq & Hx).
    rewrite Forall_forall in Hr. specialize (Hr x Hx). lia.
  - pose proof (reachable_stored_ok t Hreach) as Hok.
    rewrite Forall_forall in Hok. exact Hok.
Qed.

Lemma reachable_table_invariant_witness :
  NoDup (ids one_note) /\ 1 <= len (Title (mkNote 1 "T" "C" 100 100)).
Proof.
  destruct (reachable_table_invariant one_note one_note_reachable)
    as (_ & Hnodup & Hstored).
  split; [exact Hnodup|].
  apply (Hstored (mkNote 1 "T" "C" 100 100)). left. reflexivity.
Defined.

(** ** What each operation changes *)

Lemma insert_row_length n t : List.length (insert_row n t) = S (List.length t).
Proof.
  induction t as [|r t IH]; simpl; [reflexivity|].
  destruct (ID n <? ID r); simpl; [reflexivity|]. rewrite IH. reflexivity.
Qed.

Lemma delete_after_insert n t :
  (forall note, In note t -> ID note <> ID n) ->
  delete_by_id (ID n) (insert_row n t) = t.
Proof.
  unfold delete_by_id. induction t as [|r t IH]; simpl; intros Hfree.
  - rewrite Z.eqb_refl. reflexivity.
  - assert (Hr : ID r <> ID n) by (apply Hfree; left; reflexivity).
    assert (Hrest : filter (fun r0 => negb (ID r0 =? ID n)) t = t).
    { apply (delete_by_id_absent (ID n) t). intros note Hin. apply Hfree. auto. }
    destruct (ID n <? ID r); simpl.
    + rewrite Z.eqb_refl. simpl. destruct (Z.eqb_spec (ID r) (ID n)); [lia|].
      simpl. rewrite Hrest. reflexivity.
    + destruct (Z.eqb_spec (ID r) (ID n)); [lia|]. simpl.
      rewrite IH; [reflexivity|]. intros note Hin. apply Hfree. auto.
Qed.

Lemma rows_after_insert n t :
  (forall note, In note t -> ID note <> ID n) ->
  rows_with_id (ID n) (insert_row n t) = 1.
Proof.
  unfold rows_with_id. induction t as [|r t IH]; simpl; intros Hfree.
  - rewrite Z.eqb_refl. reflexivity.
  - assert (Hr : ID r <> ID n) by (apply Hfree; left; reflexivity).
    destruct (ID n <? ID r); simpl.
    + rewrite Z.eqb_refl. destruct (Z.eqb_spec (ID r) (ID n)); [lia|].
      pose proof (proj2 (rows_with_id_zero (ID n) t)
                    (fun note Hin => Hfree note (or_intror Hin))) as Hz.
      unfold rows_with_id in Hz. simpl. lia.
    + destruct (Z.eqb_spec (ID r) (ID n)); [lia|].
      apply IH. intros note Hin. apply Hfree. auto.
Qed.

(** X2: a [NewNote] that succeeds adds exactly the new note, with both
    timestamps at the clock second of the insert: the table has one note
    more, every note it had is still there and reads as before; a
    [NewNote] that fails leaves the table as it was. *)
Theorem NewNote_adds_one_note (e : Env) (title content : string) (t t' : table) :
  (forall id, NewNote e title content t = (Ok id, t') ->
     (forall x, In x t' <-> x = mkNote id title content (now e) (now e) \/ In x t)
     /\ List.length t' = S (List.length t)
     /\ GetAllNotes t' = Ok (insert_row (mkNote id title content (now e) (now e)) t)
     /\ (forall id', id' <> id -> GetNoteByID id' t' = GetNoteByID id' t))
  /\ (forall err, NewNote e title content t = (Err err, t') -> t' = t).
Proof.
  unfold NewNote. split.
  - intros id Hnew.
    destruct (validateSQLParam _); [discriminate|].
    destruct (new_rowid e t) as [id0|]; [|discriminate].
    injection Hnew as <- <-.
    split; [intros x; apply insert_row_In|].
    split; [apply insert_row_length|].
    split; [reflexivity|].
    intros id' Hne. unfold GetNoteByID.
    rewrite select_after_insert_other by (simpl; assumption). reflexivity.
  - intros err Hnew.
    destruct (validateSQLParam _); [injection Hnew as _ <-; reflexivity|].
    destruct (new_rowid e t); [discriminate|].
    injection Hnew as _ <-. reflexivity.
Qed.

Lemma NewNote_adds_one_note_witness :
  List.length [mkNote 1 "T" "C" 100 100; mkNote 2 "T2" "C2" 100 100]
  = S (List.length one_note)
  /\ GetNoteByID 1 [mkNote 1 "T" "C" 100 100; mkNote 2 "T2" "C2" 100 100]
     = GetNoteByID 1 one_note.
Proof.
  destruct (NewNote_adds_one_note env100 "T2" "C2" one_note
              [mkNote 1 "T" "C" 100 100; mkNote 2 "T2" "C2" 100 100])
    as [Hok _].
  destruct (Hok 2 eq_refl) as (_ & Hlen & _ & Hframe).
  split; [exact Hlen|]. apply Hframe. discriminate.
Defined.

Lemma increasing_unique id t note :
  ids_increasing t -> select_by_id id t = Some note ->
  filter (fun r => ID r =? id) t = [note]
  /\ (forall x, In x t -> ID x = id -> x = note).
Proof.
  unfold ids_increasing, select_by_id.
  induction 1 as [|r t Hs IH Hr]; simpl; [discriminate|].
  destruct (Z.eqb_spec (ID r) id) as [Heq|Hne].
  - intros [= <-].
    assert (Hnone : forall x, In x t -> ID x <> id).
    { rewrite Forall_forall in Hr. intros x Hx. specialize (Hr x Hx). lia. }
    split.
    + f_equal. clear -Hnone. induction t as [|y t IH]; simpl; [reflexivity|].
      destruct (Z.eqb_spec (ID y) id) as [Hy|Hy].
      * exfalso. apply (Hnone y); [left; reflexivity|assumption].
      * apply IH. intros x Hx. apply Hnone. right. assumption.
    + intros x [<-|Hx] Hid; [reflexivity|]. exfalso. apply (Hnone x); assumption.
  - intros Hsel. destruct (IH Hsel) as [Hf Hu]. split; [assumption|].
    intros x [<-|Hx] Hid; [contradiction|]. apply Hu; assumption.
Qed.

Lemma filter_split_length (f : Note -> bool) t :
  (List.length (filter f t) + List.length (filter (fun r => negb (f r)) t)
   = List.length t)%nat.
Proof.
  induction t as [|r t IH]; simpl; [reflexivity|].
  destruct (f r); simpl; lia.
Qed.

(** X3: on a table the program built, a [DeleteNote] that succeeds
    removes exactly the note with that id: the table has one note fewer,
    the other notes are all there and read as before. *)
Theorem DeleteNote_removes_one_note (id : Z) (t t' : table) (deleted : Z) :
  reachable t -> DeleteNote id t = (Ok deleted, t') ->
  exists note,
    GetNoteByID id t = Ok note
    /\ (forall x, In x t' <-> In x t /\ x <> note)
    /\ List.length t = S (List.length t')
    /\ (forall id', id' <> id -> GetNoteByID id' t' = GetNoteByID id' t).
Proof.
  intros Hreach Hdel.
  pose proof (reachable_increasing t Hreach) as Hs.
  unfold DeleteNote in Hdel.
  destruct (validateSQLParam [IntParam id]) as [err|] eqn:Hval; [discriminate|].
  destruct (Z.eqb_spec (rows_with_id id t) 0) as [Hz|Hnz]; [discriminate|].
  injection Hdel as _ <-.
  destruct (select_by_id id t) as [note|] eqn:Hsel.
  - exists note. destruct (increasing_unique id t note Hs Hsel) as [Hone Huniq].
    pose proof (select_by_id_some id t note Hsel) as [Hin Hid].
    split; [unfold GetNoteByID; rewrite Hval, Hsel; reflexivity|].
    split.
    + intros x. unfold delete_by_id. rewrite filter_In, negb_true_iff, Z.eqb_neq.
      split.
      * intros [Hx Hne]. split; [assumption|]. intros ->. contradiction.
      * intros [Hx Hne]. split; [assumption|]. intros Hxid. apply Hne.
        apply Huniq; assumption.
    + split.
      * pose proof (filter_split_length (fun r => ID r =? id) t) as Hlen.
        rewrite Hone in Hlen. unfold delete_by_id. simpl in Hlen. lia.
      * intros id' Hne. unfold GetNoteByID.
        rewrite select_after_delete_other by assumption. reflexivity.
  - exfalso. apply Hnz. apply rows_with_id_zero. apply select_by_id_none. assumption.
Qed.

Lemma DeleteNote_removes_one_note_witness :
  exists note,
    GetNoteByID 1 [mkNote 1 "T" "C" 100 100] = Ok note
    /\ List.length [mkNote 1 "T" "C" 100 100] = S (List.length New).
Proof.
  destruct (DeleteNote_removes_one_note 1 one_note New 1 one_note_reachable eq_refl)
    as (note & Hget & _ & Hlen & _).
  exists note. split; assumption.
Defined.

Lemma delete_by_id_twice id t :
  delete_by_id id (delete_by_id id t) = delete_by_id id t.
Proof.
  apply delete_by_id_absent. intros note Hin. unfold delete_by_id in Hin.
  apply filter_In in Hin. destruct Hin as [_ Hne].
  apply negb_true_iff, Z.eqb_neq in Hne. assumption.
Qed.

(** X4: a note is deleted once: after a [DeleteNote(id)] that succeeded,
    [DeleteNote(id)] and [SetNoteContent(id, content)] fail with NotFound
    and change nothing. *)
Theorem DeleteNote_twice_is_not_found (e : Env) (id : Z) (t t' : table) (deleted : Z) :
  DeleteNote id t = (Ok deleted, t') ->
  DeleteNote id t' = (Err ErrNoRows, t')
  /\ (forall content, ~ bad_length content ->
        SetNoteContent e id content t' = (Some ErrNoRows, t')).
Proof.
  unfold DeleteNote at 1. intros Hdel.
  destruct (validateSQLParam [IntParam id]) as [err|] eqn:Hval; [discriminate|].
  destruct (rows_with_id id t =? 0); [discriminate|].
  injection Hdel as _ <-.
  assert (Habsent : forall note, In note (delete_by_id id t) -> ID note <> id).
  { apply select_by_id_none, select_after_delete. }
  assert (Hrows : rows_with_id id (delete_by_id id t) = 0)
    by (apply rows_with_id_zero; assumption).
  split.
  - unfold DeleteNote. rewrite Hval, Hrows, delete_by_id_twice. reflexivity.
  - intros content Hcontent. unfold SetNoteContent, exec_update.
    assert (Hid : ~ bad_number id).
    { apply validate_nil_iff in Hval. inversion Hval; assumption. }
    rewrite validate_int_ok by assumption.
    rewrite validate_string_ok by assumption. cbn [validateSQLParam].
    rewrite Hrows. simpl. rewrite set_content_absent by assumption. reflexivity.
Qed.

Lemma DeleteNote_twice_witness :
  DeleteNote 1 New = (Err ErrNoRows, New).
Proof.
  exact (proj1 (DeleteNote_twice_is_not_found env100 1 one_note New 1 eq_refl)).
Defined.

(** X5: creating a note and deleting it again restores the table: on a
    table the program built, when [NewNote] returns an id of at most
    2^31-1, [DeleteNote] on that id succeeds and leaves exactly the table
    there was before the [NewNote]. *)
Theorem NewNote_then_DeleteNote_restores (e : Env) (title content : string)
    (t t' : table) (id : Z) :
  reachable t -> NewNote e title content t = (Ok id, t') -> id <= MaxInt32 ->
  DeleteNote id t' = (Ok id, t).
Proof.
  intros Hreach Hnew Hmax.
  pose proof (reachable_stored_ok t Hreach) as Hok.
  unfold NewNote in Hnew.
  destruct (validateSQLParam _); [discriminate|].
  destruct (new_rowid e t) as [id0|] eqn:Hid; [|discriminate].
  injection Hnew as <- <-.
  pose proof (new_rowid_range e t id0 Hok Hid) as Hrange.
  pose proof (new_rowid_free e t id0 Hid) as Hfree.
  unfold DeleteNote.
  rewrite validate_int_ok by (unfold bad_number; lia). cbn [validateSQLParam].
  pose proof (rows_after_insert (mkNote id0 title content (now e) (now e)) t Hfree)
    as Hrows.
  pose proof (delete_after_insert (mkNote id0 title content (now e) (now e)) t Hfree)
    as Hdel.
  simpl in Hrows, Hdel. rewrite Hrows, Hdel. reflexivity.
Qed.

Lemma NewNote_then_DeleteNote_witness :
  DeleteNote 2 [mkNote 1 "T" "C" 100 100; mkNote 2 "T2" "C2" 100 100]
  = (Ok 2, one_note).
Proof.
  apply (NewNote_then_DeleteNote_restores env100 "T2" "C2" one_note
           [mkNote 1 "T" "C" 100 100; mkNote 2 "T2" "C2" 100 100] 2
           one_note_reachable eq_refl).
  unfold MaxInt32. lia.
Defined.

Lemma NewNote_error_unchanged e title content t err t' :
  NewNote e title content t = (Err err, t') -> t' = t.
Proof.
  unfold NewNote. destruct (validateSQLParam _); [intros [= _ <-]; reflexivity|].
  destruct (new_rowid e t); [discriminate|]. intros [= _ <-]. reflexivity.
Qed.

Lemma DeleteNote_error_unchanged id t err t' :
  DeleteNote id t = (Err err, t') -> t' = t.
Proof.
  unfold DeleteNote. destruct (validateSQLParam _); [intros [= _ <-]; reflexivity|].
  destruct (Z.eqb_spec (rows_with_id id t) 0) as [Hz|]; [|discriminate].
  intros [= _ <-]. apply delete_by_id_absent, rows_with_id_zero. assumption.
Qed.

Lemma SetNoteContent_error_unchanged e id content t err t' :
  SetNoteContent e id content t = (Some err, t') -> t' = t.
Proof.
  unfold SetNoteContent, exec_update.
  destruct (validateSQLParam _); [intros [= _ <-]; reflexivity|].
  destruct (Z.eqb_spec (rows_with_id id t) 0) as [Hz|]; [|discriminate].
  rewrite Hz. simpl. intros [= _ <-].
  apply set_content_absent, rows_with_id_zero. assumption.
Qed.

(** X6: an operation of the storage that returns an error has changed
    nothing: after a failed [NewNote], [DeleteNote] or [SetNoteContent]
    the table is the table before. *)
Theorem failed_operation_changes_nothing (e : Env) (t t' : table) (err : error) :
  (forall title content, NewNote e title content t = (Err err, t') -> t' = t)
  /\ (forall id, DeleteNote id t = (Err err, t') -> t' = t)
  /\ (forall id content, SetNoteContent e id content t = (Some err, t') -> t' = t).
Proof.
  split; [|split].
  - intros title content. apply NewNote_error_unchanged.
  - intros id. apply DeleteNote_error_unchanged.
  - intros id content. apply SetNoteContent_error_unchanged.
Qed.

Lemma failed_operation_witness :
  DeleteNote 7 one_note = (Err ErrNoRows, one_note)
  /\ snd (DeleteNote 7 one_note) = one_note.
Proof.
  destruct (failed_operation_changes_nothing env100 one_note
              (snd (DeleteNote 7 one_note)) ErrNoRows) as (_ & Hdel & _).
  split; [reflexivity|]. apply (Hdel 7). reflexivity.
Defined.

(** ** Updates *)

Lemma rows_with_id_map (f : Note -> Note) id t :
  (forall r, ID (f r) = ID r) -> rows_with_id id (map f t) = rows_with_id id t.
Proof.
  intros Hf. unfold rows_with_id. f_equal.
  induction t as [|r t IH]; simpl; [reflexivity|].
  rewrite Hf. destruct (ID r =? id); simpl; rewrite IH; reflexivity.
Qed.

Lemma update_overwrites e1 e2 c1 c2 id t :
  update_last_edited_at e2 id
    (set_content c2 id (update_last_edited_at e1 id (set_content c1 id t)))
  = update_last_edited_at e2 id (set_content c2 id t).
Proof.
  unfold update_last_edited_at, set_content. rewrite !map_map.
  apply map_ext. intros r.
  destruct (ID r =? id) eqn:Hr;
    repeat (cbn [ID Title Content CreatedAt LastEditedAt]; rewrite ?Hr);
    reflexivity.
Qed.

(** X7: [SetNoteContent] never adds, removes or reorders notes and never
    touches an id, a title or a [createdAt]: whatever it returns, the
    table after has the ids, titles and creation times of the table
    before, row by row. *)
Theorem SetNoteContent_keeps_ids_titles_creation (e : Env) (id : Z)
    (content : string) (t : table) :
  let t' := snd (SetNoteContent e id content t) in
  ids t' = ids t
  /\ map Title t' = map Title t
  /\ map CreatedAt t' = map CreatedAt t
  /\ List.length t' = List.length t.
Proof.
  cbv zeta.
  assert (Hmap : forall (A : Type) (proj : Note -> A),
             (forall r c, proj (mkNote (ID r) (Title r) c (CreatedAt r) (LastEditedAt r))
                          = proj r) ->
             (forall r d, proj (mkNote (ID r) (Title r) (Content r) (CreatedAt r) d)
                          = proj r) ->
             map proj (snd (SetNoteContent e id content t)) = map proj t).
  { intros A proj Hc Hd. unfold SetNoteContent, exec_update.
    destruct (validateSQLParam _); [reflexivity|].
    assert (H1 : map proj (set_content content id t) = map proj t).
    { unfold set_content. rewrite map_map. apply map_ext. intros r.
      destruct (ID r =? id); [apply Hc|reflexivity]. }
    assert (H2 : map proj (update_last_edited_at e id (set_content content id t))
                 = map proj t).
    { rewrite <- H1. unfold update_last_edited_at. rewrite map_map.
      apply map_ext. intros r. destruct (ID r =? id); [apply Hd|reflexivity]. }
    destruct (0 <? rows_with_id id t); simpl;
      destruct (rows_with_id id t =? 0); simpl; assumption. }
  assert (Hids : ids (snd (SetNoteContent e id content t)) = ids t)
    by (apply (Hmap Z ID); reflexivity).
  repeat split.
  - exact Hids.
  - apply (Hmap string Title); reflexivity.
  - apply (Hmap Z CreatedAt); reflexivity.
  - unfold ids in Hids. rewrite <- (length_map ID), Hids, length_map. reflexivity.
Qed.

(** X8: the last write wins and leaves no trace of the one before: after
    a [SetNoteContent(id, c1)] that succeeded, [SetNoteContent(id, c2)]
    succeeds and leaves the table that it would have left without the
    first update. *)
Theorem SetNoteContent_last_write_wins (e1 e2 : Env) (id : Z) (c1 c2 : string)
    (t t1 : table) :
  SetNoteContent e1 id c1 t = (None, t1) -> ~ bad_length c2 ->
  SetNoteContent e2 id c2 t1 = SetNoteContent e2 id c2 t
  /\ fst (SetNoteContent e2 id c2 t1) = None.
Proof.
  intros Hset Hc2. apply SetNoteContent_success in Hset.
  destruct Hset as (Hid & _ & Hrows & ->).
  assert (Hsame : rows_with_id id
                    (update_last_edited_at e1 id (set_content c1 id t))
                  = rows_with_id id t).
  { unfold update_last_edited_at, set_content.
    rewrite !rows_with_id_map; [reflexivity| |]; intros r.
    - apply set_content_ID.
    - apply trigger_ID. }
  assert (Heq : SetNoteContent e2 id c2
                  (update_last_edited_at e1 id (set_content c1 id t))
                = SetNoteContent e2 id c2 t).
  { unfold SetNoteContent, exec_update.
    rewrite validate_int_ok by assumption.
    rewrite validate_string_ok by assumption. cbn [validateSQLParam].
    rewrite Hsame.
    destruct (Z.ltb_spec 0 (rows_with_id id t)); [|lia].
    destruct (Z.eqb_spec (rows_with_id id t) 0); [lia|].
    rewrite update_overwrites. reflexivity. }
  split; [exact Heq|]. rewrite Heq.
  unfold SetNoteContent, exec_update.
  rewrite validate_int_ok by assumption.
  rewrite validate_string_ok by assumption. cbn [validateSQLParam].
  destruct (Z.eqb_spec (rows_with_id id t) 0); [lia|]. reflexivity.
Qed.

Lemma SetNoteContent_last_write_witness :
  SetNoteContent env100 1 "C3" [mkNote 1 "T" "C2" 100 100]
  = SetNoteContent env100 1 "C3" one_note.
Proof.
  apply (SetNoteContent_last_write_wins env100 env100 1 "C2" "C3" one_note
           [mkNote 1 "T" "C2" 100 100] eq_refl).
  unfold bad_length, maxStringLength. vm_compute. intuition discriminate.
Defined.

(** ** Time *)

Lemma times_ok_later c c' r : c <= c' -> times_ok c r -> times_ok c' r.
Proof. unfold times_ok. lia. Qed.

Lemma reachable_at_times c t : reachable_at c t -> Forall (times_ok c) t.
Proof.
  induction 1 as [c|e title content c t _ IH Hc|id c t _ IH|e id content c t _ IH Hc].
  - constructor.
  - unfold NewNote. destruct (validateSQLParam _).
    + simpl. eapply Forall_impl; [|exact IH]. intros r. apply times_ok_later, Hc.
    + destruct (new_rowid e t); simpl.
      * rewrite Forall_forall in *. intros x Hx. apply insert_row_In in Hx.
        destruct Hx as [->|Hx]; [unfold times_ok; simpl; lia|].
        apply (times_ok_later c); auto.
      * eapply Forall_impl; [|exact IH]. intros r. apply times_ok_later, Hc.
  - unfold DeleteNote. destruct (validateSQLParam _); [assumption|].
    assert (Hd : Forall (times_ok c) (delete_by_id id t)).
    { rewrite Forall_forall in *. intros x Hx. apply filter_In in Hx. apply IH, Hx. }
    simpl. destruct (rows_with_id id t =? 0); assumption.
  - assert (Hlater : Forall (times_ok (now e)) t).
    { eapply Forall_impl; [|exact IH]. intros r. apply times_ok_later, Hc. }
    unfold SetNoteContent, exec_update. destruct (validateSQLParam _); [assumption|].
    assert (H1 : Forall (times_ok (now e)) (set_content content id t)).
    { unfold set_content. rewrite Forall_forall in *. intros x Hx.
      apply in_map_iff in Hx. destruct Hx as (r & <- & Hr).
      specialize (Hlater r Hr). destruct (ID r =? id); assumption. }
    assert (H2 : Forall (times_ok (now e))
                   (update_last_edited_at e id (set_content content id t))).
    { unfold update_last_edited_at. rewrite Forall_forall in *. intros x Hx.
      apply in_map_iff in Hx. destruct Hx as (r & <- & Hr).
      specialize (H1 r Hr). destruct (ID r =? id); [|assumption].
      unfold times_ok in *. simpl. lia. }
    destruct (0 <? rows_with_id id t); simpl;
      destruct (rows_with_id id t =? 0); assumption.
Qed.

(** X9: while the clock never goes back, every stored note has
    [createdAt] at or before [lastEditedAt], and neither after the clock
    second of the last statement. *)
Theorem lastEditedAt_not_before_createdAt (c : Z) (t : table) :
  reachable_at c t ->
  forall note, In note t ->
    CreatedAt note <= LastEditedAt note /\ LastEditedAt note <= c.
Proof.
  intros Hreach note Hin. pose proof (reachable_at_times c t Hreach) as Hok.
  rewrite Forall_forall in Hok. exact (Hok note Hin).
Qed.

Lemma lastEditedAt_witness :
  CreatedAt (mkNote 1 "T" "C2" 100 105) <= LastEditedAt (mkNote 1 "T" "C2" 100 105)
  /\ LastEditedAt (mkNote 1 "T" "C2" 100 105) <= 105.
Proof.
  apply (lastEditedAt_not_before_createdAt 105 [mkNote 1 "T" "C2" 100 105]).
  - exact (at_SetNoteContent (mkEnv 105 (fun _ => 0)) 1 "C2" 100 one_note
             (at_NewNote env100 "T" "C" 0 New (at_New 0) ltac:(simpl; lia))
             ltac:(simpl; lia)).
  - left. reflexivity.
Defined.

(** * Further properties of the search *)

Lemma rows_like_sound pattern t note :
  In note (rows_like pattern t) ->
  In note t
  /\ (like pattern (Title note) = Some true \/ like pattern (Content note) = Some true).
Proof.
  induction t as [|r t IH]; simpl; [contradiction|].
  destruct (like pattern (Title r)) as [a|] eqn:Ha; [|contradiction].
  destruct (like pattern (Content r)) as [b|] eqn:Hb; [|contradiction].
  destruct (a || b) eqn:Hab.
  - intros [<-|Hin].
    + split; [left; reflexivity|]. apply orb_true_iff in Hab.
      destruct Hab as [-> | ->]; [left|right]; assumption.
    + destruct (IH Hin) as [Hin' Hm]. split; [right|]; assumption.
  - intros Hin. destruct (IH Hin) as [Hin' Hm]. split; [right|]; assumption.
Qed.

Lemma rows_like_increasing pattern t :
  ids_increasing t -> ids_increasing (rows_like pattern t).
Proof.
  unfold ids_increasing. induction 1 as [|r t Hs IH Hr]; simpl; [constructor|].
  destruct (like pattern (Title r)); [|constructor].
  destruct (like pattern (Content r)); [|constructor].
  destruct (_ || _); [|assumption]. constructor; [assumption|].
  rewrite Forall_forall in *. intros x Hx.
  apply Hr. apply (rows_like_sound pattern t x Hx).
Qed.

(** X10: a search returns stored notes only, each matching the pattern
    made of the keyword in its title or its content, and never the same
    note twice: on a table the program built the notes found come in
    strictly increasing order of id. *)
Theorem Search_returns_stored_matching_notes (keyword : string) (t : table)
    (notes : list Note) :
  reachable t -> SearchNotesByKeyword keyword t = Ok notes ->
  (forall note, In note notes ->
     In note t
     /\ (like ("%" +++ keyword +++ "%") (Title note) = Some true
         \/ like ("%" +++ keyword +++ "%") (Content note) = Some true))
  /\ ids_increasing notes /\ (List.length notes <= List.length t)%nat.
Proof.
  intros Hreach Hsearch. unfold SearchNotesByKeyword in Hsearch.
  destruct (validateSQLParam _); [discriminate|]. injection Hsearch as <-.
  split; [intros note; apply rows_like_sound|].
  split; [apply rows_like_increasing, reachable_increasing; assumption|].
  clear Hreach. induction t as [|r t IH]; simpl; [lia|].
  destruct (like _ (Title r)); [|simpl; lia].
  destruct (like _ (Content r)); [|simpl; lia].
  destruct (_ || _); simpl; lia.
Qed.

Lemma Search_returns_stored_witness :
  ids_increasing [note2] /\ (List.length [note2] <= 2)%nat.
Proof.
  assert (Hreach : reachable [note1; note2]).
  { exact (reach_NewNote env100 (Title note2) (Content note2) [note1]
             (reach_NewNote env100 (Title note1) (Content note1) New reach_New)). }
  destruct (Search_returns_stored_matching_notes "keyword" [note1; note2] [note2]
              Hreach eq_refl) as (_ & Hinc & Hlen).
  split; assumption.
Defined.

Lemma char_eq_refl c : char_eq c c = true.
Proof. unfold char_eq. rewrite Z.eqb_refl. reflexivity. Qed.

Lemma starts_with_app k s : starts_with k (k ++ s) = true.
Proof.
  induction k as [|c k IH]; simpl; [reflexivity|].
  rewrite char_eq_refl, IH. reflexivity.
Qed.

Lemma occurs_self k : occurs k k = true.
Proof.
  pose proof (starts_with_app k []) as Hs. rewrite app_nil_r in Hs.
  destruct k; simpl in *; rewrite ?Hs; reflexivity.
Qed.

(** X11: a note is found by its own title: when the title of a stored
    note is a valid keyword of at most 49998 bytes with no ['%'], ['_']
    or NUL byte in it, a search for that title returns the note. *)
Theorem Search_finds_note_by_its_title (t : table) (note : Note) :
  In note t -> ~ bad_length (Title note) -> within_like_limit (Title note) ->
  plain_keyword (Title note) ->
  exists notes,
    SearchNotesByKeyword (Title note) t = Ok notes /\ In note notes.
Proof.
  intros Hin Hvalid Hlimit Hplain. eexists. split.
  - apply Search_plain; assumption.
  - apply filter_In. split; [assumption|]. apply orb_true_iff. left.
    unfold occurs_in. rewrite cstring_no_nul.
    + apply occurs_self.
    + eapply Forall_impl; [|exact Hplain]. intros x Hx. apply Hx.
Qed.

Lemma Search_by_title_witness :
  exists notes,
    SearchNotesByKeyword "Test Note 2" [note1; note2] = Ok notes /\ In note2 notes.
Proof.
  apply (Search_finds_note_by_its_title [note1; note2] note2).
  - right. left. reflexivity.
  - unfold bad_length, maxStringLength. vm_compute. intuition discriminate.
  - unfold within_like_limit. vm_compute. discriminate.
  - unfold plain_keyword. simpl. repeat constructor; discriminate.
Defined.

(** X12: the search does not tell ASCII capitals from small letters in
    the keyword: two valid ASCII keywords without wildcards that are
    equal once their capitals are made small find the same notes. *)
Theorem Search_ignores_case_of_keyword (k1 k2 : string) (t : table) :
  ~ bad_length k1 -> ~ bad_length k2 ->
  within_like_limit k1 -> within_like_limit k2 ->
  plain_keyword k1 -> plain_keyword k2 ->
  ascii_keyword k1 -> ascii_keyword k2 ->
  fold_case (bytes k1) = fold_case (bytes k2) ->
  SearchNotesByKeyword k1 t = SearchNotesByKeyword k2 t.
Proof.
  intros Hv1 Hv2 Hl1 Hl2 Hp1 Hp2 Ha1 Ha2 Hfold.
  rewrite !Search_plain by assumption. f_equal. apply filter_ext. intros note.
  assert (Hne : forall k, ~ bad_length k -> k <> EmptyString).
  { intros k Hk ->. apply Hk. left. vm_compute. reflexivity. }
  rewrite !occurs_in_ascii by auto.
  unfold ContainsFold. rewrite Hfold. reflexivity.
Qed.

Lemma Search_ignores_case_witness :
  SearchNotesByKeyword "KeyWord" [note1; note2]
  = SearchNotesByKeyword "keyword" [note1; note2].
Proof.
  apply Search_ignores_case_of_keyword;
    try (unfold bad_length, maxStringLength; vm_compute; intuition discriminate);
    try (unfold within_like_limit; vm_compute; discriminate);
    try (unfold plain_keyword; simpl; repeat constructor; discriminate);
    try (unfold ascii_keyword; simpl; repeat constructor);
    reflexivity.
Defined.

Lemma has_prefix_fold k s :
  has_prefix k s = true -> has_prefix (fold_case k) (fold_case s) = true.
Proof.
  revert s. induction k as [|x k IH]; intros s; [reflexivity|].
  destruct s as [|y s]; simpl; [discriminate|].
  intros Hp. apply andb_true_iff in Hp. destruct Hp as [Hxy Hrest].
  apply Z.eqb_eq in Hxy. subst y. rewrite Z.eqb_refl. apply IH. assumption.
Qed.

Lemma contains_fold k s :
  contains k s = true -> contains (fold_case k) (fold_case s) = true.
Proof.
  induction s as [|y s IH]; simpl.
  - rewrite !orb_false_r. apply has_prefix_fold.
  - intros Hc. apply orb_true_iff in Hc. apply orb_true_iff.
    destruct Hc as [Hp|Hc]; [left|right; apply IH; assumption].
    apply (has_prefix_fold k (y :: s)). assumption.
Qed.

(** X13: a note that has the keyword written in it is found: for a valid
    ASCII keyword of at most 49998 bytes without wildcards, every stored
    note whose title, or whose content, has no NUL byte and contains the
    keyword as a substring is among the notes returned. *)
Theorem Search_finds_every_literal_occurrence (keyword : string) (t : table)
    (note : Note) :
  ~ bad_length keyword -> within_like_limit keyword ->
  plain_keyword keyword -> ascii_keyword keyword ->
  In note t ->
  (no_nul (Title note) /\ Contains keyword (Title note) = true)
  \/ (no_nul (Content note) /\ Contains keyword (Content note) = true) ->
  exists notes, SearchNotesByKeyword keyword t = Ok notes /\ In note notes.
Proof.
  intros Hvalid Hlimit Hplain Hascii Hin Hhas. eexists. split.
  - apply Search_plain; assumption.
  - apply filter_In. split; [assumption|]. apply orb_true_iff.
    assert (Hne : keyword <> EmptyString).
    { intros ->. apply Hvalid. left. vm_compute. reflexivity. }
    rewrite !occurs_in_ascii by assumption. unfold ContainsFold, Contains, no_nul in *.
    destruct Hhas as [[Hnul Hc]|[Hnul Hc]]; [left|right];
      rewrite cstring_no_nul by assumption; apply contains_fold; assumption.
Qed.

Lemma Search_literal_witness :
  exists notes, SearchNotesByKeyword "second" [note1; note2] = Ok notes /\ In note2 notes.
Proof.
  assert (Hvalid : ~ bad_length "second")
    by (unfold bad_length, maxStringLength; vm_compute; intuition discriminate).
  assert (Hlimit : within_like_limit "second")
    by (unfold within_like_limit; vm_compute; discriminate).
  assert (Hplain : plain_keyword "second")
    by (unfold plain_keyword; simpl; repeat constructor; discriminate).
  assert (Hascii : ascii_keyword "second")
    by (unfold ascii_keyword; simpl; repeat constructor).
  assert (Hin : In note2 [note1; note2]) by (right; left; reflexivity).
  assert (Hnul : no_nul (Content note2))
    by (unfold no_nul; simpl; repeat constructor; discriminate).
  exact (Search_finds_every_literal_occurrence "second" [note1; note2] note2
           Hvalid Hlimit Hplain Hascii Hin (or_intror (conj Hnul eq_refl))).
Defined.

(** * Further properties of validation and lookup *)

Lemma param_ok_dec p : {param_ok p} + {~ param_ok p}.
Proof.
  destruct p as [v|v]; simpl.
  - destruct (bad_number_dec v); [right; tauto|left; assumption].
  - destruct (bad_length_dec v); [right; tauto|left; assumption].
Qed.

Lemma validate_cons p rest :
  validateSQLParam (p :: rest)
  = if param_ok_dec p then validateSQLParam rest else Some (param_error p).
Proof.
  destruct (param_ok_dec p) as [Hok|Hbad]; destruct p as [v|v]; simpl in *.
  - apply validate_int_ok. assumption.
  - apply validate_string_ok. assumption.
  - apply validate_int_bad. destruct (bad_number_dec v); tauto.
  - apply validate_string_bad. destruct (bad_length_dec v); tauto.
Qed.

(** X14: [validateSQLParam] reports the first parameter out of bounds and
    looks no further: it returns an error exactly when the parameters are
    some parameters within bounds followed by one out of bounds, and the
    error is the one of that parameter, "invalid number" for an integer
    and "invalid param length" for a string; it returns nil exactly when
    all parameters are within bounds. *)
Theorem validateSQLParam_reports_first_offence (params : list param) :
  (validateSQLParam params = None <-> Forall param_ok params)
  /\ (forall err,
        validateSQLParam params = Some err <->
        exists ok p rest,
          params = ok ++ p :: rest /\ Forall param_ok ok /\ ~ param_ok p
          /\ err = param_error p).
Proof.
  split.
  - induction params as [|p rest IH]; [split; [constructor|reflexivity]|].
    rewrite validate_cons. destruct (param_ok_dec p) as [Hok|Hbad].
    + rewrite IH. split; [intros; constructor; assumption|].
      intros HF. inversion HF; assumption.
    + split; [discriminate|]. intros HF. inversion HF; contradiction.
  - induction params as [|p rest IH]; intros err.
    + split; [discriminate|]. intros (ok & p & rest & Heq & _).
      destruct ok; discriminate.
    + rewrite validate_cons. destruct (param_ok_dec p) as [Hok|Hbad].
      * rewrite IH. split.
        -- intros (ok & q & rest' & -> & Hoks & Hq & ->).
           exists (p :: ok), q, rest'. repeat split; try assumption.
           constructor; assumption.
        -- intros (ok & q & rest' & Heq & Hoks & Hq & ->).
           destruct ok as [|p' ok]; simpl in Heq; injection Heq as -> ->.
           ++ contradiction.
           ++ exists ok, q, rest'. inversion Hoks; subst. repeat split; assumption.
      * split.
        -- intros [= <-]. exists [], p, rest. repeat split; [constructor|assumption].
        -- intros (ok & q & rest' & Heq & Hoks & Hq & ->).
           destruct ok as [|p' ok]; simpl in Heq; injection Heq as -> ->.
           ++ reflexivity.
           ++ inversion Hoks; subst. contradiction.
Qed.

(** X15: on a table the program built, [GetNoteByID(id)] returns a note
    exactly when the id is within [1, 2^31-1] and that note is the stored
    note with this id; there is no other. *)
Theorem GetNoteByID_returns_the_stored_note (t : table) (id : Z) (note : Note) :
  reachable t ->
  (GetNoteByID id t = Ok note <-> ~ bad_number id /\ In note t /\ ID note = id).
Proof.
  intros Hreach. pose proof (reachable_increasing t Hreach) as Hs.
  unfold GetNoteByID. destruct (bad_number_dec id) as [Hid|Hid].
  - rewrite validate_int_bad by assumption. split; [discriminate|tauto].
  - rewrite validate_int_ok by assumption. cbn [validateSQLParam].
    destruct (select_by_id id t) as [found|] eqn:Hsel.
    + destruct (increasing_unique id t found Hs Hsel) as [_ Huniq].
      pose proof (select_by_id_some id t found Hsel) as [Hin Hfid].
      split.
      * intros [= <-]. auto.
      * intros (_ & Hnote & Hnid). f_equal. symmetry. apply Huniq; assumption.
    + split; [discriminate|]. intros (_ & Hnote & Hnid). exfalso.
      apply (proj1 (select_by_id_none id t) Hsel note Hnote Hnid).
Qed.

Lemma GetNoteByID_witness :
  GetNoteByID 1 one_note = Ok (mkNote 1 "T" "C" 100 100).
Proof.
  apply (GetNoteByID_returns_the_stored_note one_note 1 (mkNote 1 "T" "C" 100 100)
           one_note_reachable).
  split; [unfold bad_number, MaxInt32; lia|]. split; [left|]; reflexivity.
Defined.

(** * Further properties of the dispatcher *)

Lemma action_error_or_read_changes_nothing (timeString : Z -> string)
    (e : Env) (cmd : cli.Command) (args : list string) (t : table) :
  let o := cli.HandleAction (H := main.sqliteStorage e) timeString cmd args t in
  (cli.returned o <> None -> cli.store o = t)
  /\ (reads_only cmd -> cli.store o = t).
Proof.
  cbv zeta. split.
  - destruct cmd; unfold cli.HandleAction.
    + unfold cli.newNoteCommand.
      destruct (String.eqb _ _); [reflexivity|].
      destruct (String.eqb _ _); [reflexivity|].
      destruct (cli.NewNote _ _ t) as [[id|err] t'] eqn:Hnew; simpl.
      * intros Hne. contradiction.
      * intros _. apply (NewNote_error_unchanged e _ _ t err t' Hnew).
    + unfold cli.deleteNoteCommand.
      destruct (String.eqb _ _); [reflexivity|].
      destruct (strconv.Atoi _) as [id|]; [|reflexivity].
      destruct (cli.DeleteNote id t) as [[d|err] t'] eqn:Hdel; simpl.
      * intros Hne. contradiction.
      * intros _. apply (DeleteNote_error_unchanged id t err t' Hdel).
    + unfold cli.getNoteByIDCommand.
      destruct (String.eqb _ _); [reflexivity|].
      destruct (strconv.Atoi _) as [id|]; [|reflexivity].
      simpl. destruct (GetNoteByID id t); reflexivity.
    + unfold cli.listNotesCommand. reflexivity.
    + unfold cli.updateNoteContentCommand.
      destruct (String.eqb _ _); [reflexivity|].
      destruct (strconv.Atoi _) as [id|]; [|reflexivity].
      destruct (String.eqb _ _); [reflexivity|].
      destruct (cli.SetNoteContent id _ t) as [[err|] t'] eqn:Hset; simpl.
      * intros _. apply (SetNoteContent_error_unchanged e id _ t err t' Hset).
      * intros Hne. contradiction.
    + unfold cli.searchNotesCommand.
      destruct (String.eqb _ _); [reflexivity|].
      simpl. destruct (SearchNotesByKeyword _ t) as [[|n notes]|]; reflexivity.
  - unfold reads_only. intros [ -> | [ -> | -> ] ]; unfold cli.HandleAction.
    + unfold cli.getNoteByIDCommand.
      destruct (String.eqb _ _); [reflexivity|].
      destruct (strconv.Atoi _) as [id|]; [|reflexivity].
      simpl. destruct (GetNoteByID id t); reflexivity.
    + reflexivity.
    + unfold cli.searchNotesCommand.
      destruct (String.eqb _ _); [reflexivity|].
      simpl. destruct (SearchNotesByKeyword _ t) as [[|n notes]|]; reflexivity.
Qed.

(** X16: over the sqlite storage, a command that returns an error has
    left the table as it was, and so has every run of [get], [list] and
    [search], whatever its arguments. *)
Theorem command_error_or_read_changes_nothing (timeString : Z -> string)
    (commandHelp : cli.Command -> string)
    (e : Env) (cmd : cli.Command) (args : list string) (t : table) :
  let o := cli.Run (H := main.sqliteStorage e) timeString commandHelp cmd args t in
  (cli.returned o <> None -> cli.store o = t)
  /\ (reads_only cmd -> cli.store o = t).
Proof.
  cbv zeta. unfold cli.Run.
  destruct (cli.parseFlags args) as [[[|] positional]|err].
  - split; reflexivity.
  - apply action_error_or_read_changes_nothing.
  - split; reflexivity.
Qed.

Lemma command_error_witness :
  cli.store (cli.Run (H := main.sqliteStorage env100) itoa help_text cli.cmdDelete ["7"]
               one_note)
  = one_note
  /\ cli.store (cli.Run (H := main.sqliteStorage env100) itoa help_text cli.cmdSearch ["T"]
                  one_note)
     = one_note.
Proof.
  destruct (command_error_or_read_changes_nothing itoa help_text env100 cli.cmdDelete ["7"]
              one_note)
    as [Herr _].
  destruct (command_error_or_read_changes_nothing itoa help_text env100 cli.cmdSearch ["T"]
              one_note)
    as [_ Hread].
  split.
  - apply Herr. discriminate.
  - apply Hread. right. right. reflexivity.
Defined.

(** ** Ids on the command line *)

Lemma uint_val_ge acc d : 0 <= acc -> acc <= uint_val acc d.
Proof.
  revert acc. induction d as [|d IH|d IH|d IH|d IH|d IH|d IH|d IH|d IH|d IH|d IH];
    intros acc Hacc; simpl; [lia|..];
    match goal with
    | |- _ <= uint_val ?a d => specialize (IH a ltac:(lia)); lia
    end.
Qed.

Lemma parse_digits_decimal d : forall n,
  0 <= n -> uint_val n d <= strconv.maxUint64 ->
  strconv.parse_digits n (NilEmpty.string_of_uint d) = inr (uint_val n d).
Proof.
  induction d as [|d IH|d IH|d IH|d IH|d IH|d IH|d IH|d IH|d IH|d IH];
    intros n Hn Hmax; [reflexivity|..];
    cbn [NilEmpty.string_of_uint strconv.parse_digits uint_val] in *;
    match goal with
    | H : uint_val ?a d <= _ |- _ =>
        pose proof (uint_val_ge a d ltac:(lia)) as Hge
    end;
    unfold strconv.maxUint64 in *;
    change (strconv.is_digit _) with true; cbv iota;
    match goal with
    | |- context [byte_val ?c] =>
        let v := eval vm_compute in (byte_val c) in change (byte_val c) with v
    end;
    (destruct (Z.geb_spec n (18446744073709551615 / 10 + 1)) as [Hbig|_];
     [change (18446744073709551615 / 10 + 1) with 1844674407370955162 in Hbig; lia|]);
    match goal with
    | |- context [?a >? 18446744073709551615] =>
        destruct (Z.gtb_spec a 18446744073709551615); [lia|]
    end;
    match goal with
    | |- strconv.parse_digits ?a _ = inr (uint_val ?b _) =>
        let Heq := fresh "Heq" in
        assert (Heq : a = b) by lia; rewrite Heq; apply IH; [lia|assumption]
    end.
Qed.

Lemma of_uint_acc_val d : forall acc,
  Z.pos (Pos.of_uint_acc d acc) = uint_val (Z.pos acc) d.
Proof.
  induction d as [|d IH|d IH|d IH|d IH|d IH|d IH|d IH|d IH|d IH|d IH];
    intros acc; cbn [Pos.of_uint_acc uint_val]; [reflexivity|..];
    rewrite IH; f_equal; lia.
Qed.

Lemma of_uint_val d : Z.of_N (Pos.of_uint d) = uint_val 0 d.
Proof.
  induction d as [|d IH|d IH|d IH|d IH|d IH|d IH|d IH|d IH|d IH|d IH];
    cbn [Pos.of_uint uint_val Z.of_N]; [reflexivity|exact IH|..];
    rewrite of_uint_acc_val; reflexivity.
Qed.

Lemma to_uint_val p : uint_val 0 (Pos.to_uint p) = Z.pos p.
Proof. rewrite <- of_uint_val, Unsigned.of_to. reflexivity. Qed.

(** The decimal text of a positive id is the text [Atoi] reads as that id. *)
Lemma Atoi_itoa id : 1 <= id <= MaxInt64 -> strconv.Atoi (itoa id) = Ok id.
Proof.
  intros Hid. destruct id as [|p|p]; try lia.
  unfold itoa. cbn [Z.to_int NilZero.string_of_int].
  pose proof (Unsigned.to_uint_nonnil p) as Hnil.
  assert (Hparse : strconv.parse_digits 0 (NilEmpty.string_of_uint (Pos.to_uint p))
                   = inr (Z.pos p)).
  { pose proof (parse_digits_decimal (Pos.to_uint p) 0 ltac:(lia)) as Hp.
    rewrite to_uint_val in Hp. apply Hp.
    unfold strconv.maxUint64, MaxInt64 in *. lia. }
  unfold NilZero.string_of_uint.
  destruct (Pos.to_uint p) as [|d|d|d|d|d|d|d|d|d|d]; [contradiction|..];
    cbn [NilEmpty.string_of_uint] in *;
    unfold strconv.Atoi, strconv.ParseUint;
    match goal with
    | |- context [byte_val ?c] =>
        let v := eval vm_compute in (byte_val c) in change (byte_val c) with v
    end;
    cbv beta iota zeta; change (_ =? 45) with false; change (_ =? 43) with false;
    cbn [orb negb andb]; rewrite Hparse;
    (destruct (Z.geb_spec (Z.pos p) (2 ^ 63)); [unfold MaxInt64 in *; lia|]);
    reflexivity.
Qed.

Lemma valid_not_empty s : ~ bad_length s -> String.eqb s EmptyString = false.
Proof.
  intros Hs. apply eqb_empty_false. intros ->. apply Hs. left. vm_compute. reflexivity.
Qed.

Lemma itoa_not_empty id :
  1 <= id <= MaxInt64 -> String.eqb (itoa id) EmptyString = false.
Proof.
  intros Hid. apply eqb_empty_false. intros Heq.
  pose proof (Atoi_itoa id Hid) as Hparse. rewrite Heq in Hparse. discriminate.
Qed.

(** The decimal text of a positive id does not start with [-]. *)
Lemma itoa_no_dash id : 1 <= id -> no_dash (itoa id).
Proof.
  intros Hid. destruct id as [|p|p]; try lia.
  unfold itoa. cbn [Z.to_int NilZero.string_of_int].
  pose proof (Unsigned.to_uint_nonnil p) as Hnil.
  unfold NilZero.string_of_uint.
  destruct (Pos.to_uint p) as [|d|d|d|d|d|d|d|d|d|d]; [contradiction|..];
    reflexivity.
Qed.

(** X17: the id that [new] prints is the id that [get] takes: on a table
    the program built, with ids below 2^31-1, [new T C] with a valid title
    and content, neither starting with [-], prints "Created a new note
    with ID n" and returns no error, and [get n], given the same decimal
    text, then prints the note with id n, title T, content C and both
    timestamps at the second of the creation. *)
Theorem new_then_get_on_the_command_line (timeString : Z -> string)
    (commandHelp : cli.Command -> string)
    (e e' : Env) (T C : string) (t : table) :
  reachable t -> (forall note, In note t -> ID note < MaxInt32) ->
  ~ bad_length T -> ~ bad_length C -> no_dash T -> no_dash C ->
  let n := next_rowid t in
  let created := cli.Run (H := main.sqliteStorage e) timeString commandHelp
                   cli.cmdNew [T; C] t in
  let shown := cli.Run (H := main.sqliteStorage e') timeString commandHelp
                 cli.cmdGet [itoa n] (cli.store created) in
  created
  = cli.mkOutcome ("Created a new note with ID " +++ itoa n +++ cli.nl) None
      (insert_row (mkNote n T C (now e) (now e)) t)
  /\ shown
     = cli.mkOutcome
         ("Note ID: " +++ itoa n +++ cli.nl
          +++ "Title: " +++ T +++ cli.nl
          +++ "Content: " +++ C +++ cli.nl
          +++ "CreatedAt: " +++ timeString (now e) +++ cli.nl
          +++ "LastEditedAt: " +++ timeString (now e) +++ cli.nl)
         None (cli.store created).
Proof.
  intros Hreach Hids HT HC HdT HdC n created shown.
  pose proof (reachable_stored_ok t Hreach) as Hok. rewrite Forall_forall in Hok.
  assert (Hn : 1 <= n <= MaxInt32).
  { unfold n, next_rowid. destruct (max_rowid t) as [m|] eqn:Hmax.
    - destruct (max_rowid_attained t m Hmax) as (note & Hin & <-).
      specialize (Hids note Hin). destruct (Hok note Hin) as [Hid _]. lia.
    - unfold MaxInt32. lia. }
  assert (Hfree : forall note, In note t -> ID note <> n).
  { unfold n, next_rowid. destruct (max_rowid t) as [m|] eqn:Hmax.
    - intros note Hin. pose proof (max_rowid_bound t m Hmax note Hin). lia.
    - apply max_rowid_none in Hmax. subst t. intros note []. }
  assert (Hnew : NewNote e T C t
                 = (Ok n, insert_row (mkNote n T C (now e) (now e)) t)).
  { apply NewNote_ok; try assumption. intros note Hin. specialize (Hids note Hin).
    unfold MaxInt32, MaxInt64 in *. lia. }
  assert (Hcreated : created
            = cli.mkOutcome ("Created a new note with ID " +++ itoa n +++ cli.nl) None
                (insert_row (mkNote n T C (now e) (now e)) t)).
  { unfold created. rewrite Run_no_dash by (repeat constructor; assumption).
    unfold cli.HandleAction, cli.newNoteCommand.
    change (cli.First [T; C]) with T. change (cli.Get 1 [T; C]) with C.
    rewrite (valid_not_empty T HT), (valid_not_empty C HC).
    change (cli.NewNote T C t) with (NewNote e T C t). rewrite Hnew. reflexivity. }
  split; [exact Hcreated|].
  unfold shown. rewrite Hcreated. cbn [cli.store].
  rewrite Run_no_dash by (repeat constructor; apply itoa_no_dash; lia).
  unfold cli.HandleAction, cli.getNoteByIDCommand.
  change (cli.First [itoa n]) with (itoa n).
  rewrite itoa_not_empty by (unfold MaxInt32, MaxInt64 in *; lia).
  rewrite Atoi_itoa by (unfold MaxInt32, MaxInt64 in *; lia).
  change (cli.GetNoteByID n ?s) with (GetNoteByID n s, s).
  unfold GetNoteByID. rewrite validate_int_ok by (unfold bad_number; lia).
  pose proof (select_after_insert (mkNote n T C (now e) (now e)) t Hfree) as Hsel.
  simpl in Hsel. rewrite Hsel. reflexivity.
Qed.

Lemma new_then_get_witness :
  cli.Run (H := main.sqliteStorage env100) itoa help_text cli.cmdNew ["T2"; "C2"] one_note
  = cli.mkOutcome ("Created a new note with ID " +++ itoa 2 +++ cli.nl) None
      [mkNote 1 "T" "C" 100 100; mkNote 2 "T2" "C2" 100 100].
Proof.
  assert (HT : ~ bad_length "T2")
    by (unfold bad_length, maxStringLength; vm_compute; intuition discriminate).
  assert (HC : ~ bad_length "C2")
    by (unfold bad_length, maxStringLength; vm_compute; intuition discriminate).
  assert (Hids : forall note, In note one_note -> ID note < MaxInt32).
  { intros note [<-|[]]. vm_compute. reflexivity. }
  exact (proj1 (new_then_get_on_the_command_line itoa help_text env100 env100 "T2" "C2"
                  one_note one_note_reachable Hids HT HC eq_refl eq_refl)).
Defined.

(** X18: [delete] and [update] take the id they are given in decimal: on
    a table the program built, for a stored note with an id of at most
    2^31-1, [delete id] prints "Deleted note with ID id", returns no
    error and leaves the table without that note, and [update id content]
    with valid content that does not start with [-] prints "Updated note
    with ID id", returns no error and leaves the note with the new content
    and the time of the update. *)
Theorem delete_and_update_by_printed_id (timeString : Z -> string)
    (commandHelp : cli.Command -> string) (e : Env)
    (t : table) (note : Note) (content : string) :
  reachable t -> In note t -> ID note <= MaxInt32 -> ~ bad_length content ->
  no_dash content ->
  cli.Run (H := main.sqliteStorage e) timeString commandHelp cli.cmdDelete
    [itoa (ID note)] t
  = cli.mkOutcome ("Deleted note with ID " +++ itoa (ID note) +++ cli.nl) None
      (delete_by_id (ID note) t)
  /\ GetNoteByID (ID note) (delete_by_id (ID note) t) = Err ErrNoRows
  /\ cli.Run (H := main.sqliteStorage e) timeString commandHelp cli.cmdUpdate
       [itoa (ID note); content] t
     = cli.mkOutcome ("Updated note with ID " +++ itoa (ID note) +++ cli.nl) None
         (update_last_edited_at e (ID note) (set_content content (ID note) t))
  /\ GetNoteByID (ID note)
       (update_last_edited_at e (ID note) (set_content content (ID note) t))
     = Ok (mkNote (ID note) (Title note) content (CreatedAt note) (now e)).
Proof.
  intros Hreach Hin Hmax Hcontent Hdash.
  pose proof (reachable_stored_ok t Hreach) as Hok. rewrite Forall_forall in Hok.
  destruct (Hok note Hin) as [Hid _].
  assert (Hdid : no_dash (itoa (ID note))) by (apply itoa_no_dash; lia).
  assert (Hvalid : ~ bad_number (ID note)) by (unfold bad_number; lia).
  assert (Hrange : 1 <= ID note <= MaxInt64) by lia.
  destruct (select_by_id (ID note) t) as [found|] eqn:Hsel;
    [|exfalso; apply (proj1 (select_by_id_none (ID note) t) Hsel note Hin); reflexivity].
  destruct (increasing_unique (ID note) t found (reachable_increasing t Hreach) Hsel)
    as [_ Huniq].
  assert (found = note) by (symmetry; apply Huniq; [assumption|reflexivity]). subst found.
  pose proof (rows_with_id_of_select (ID note) t note Hsel) as Hrows.
  split; [|split; [|split]].
  - rewrite Run_no_dash by (repeat constructor; assumption).
    unfold cli.HandleAction, cli.deleteNoteCommand.
    change (cli.First [itoa (ID note)]) with (itoa (ID note)).
    rewrite itoa_not_empty, Atoi_itoa by assumption.
    change (cli.DeleteNote (ID note) t) with (DeleteNote (ID note) t).
    unfold DeleteNote. rewrite validate_int_ok by assumption. cbv zeta.
    destruct (Z.eqb_spec (rows_with_id (ID note) t) 0); [lia|]. reflexivity.
  - unfold GetNoteByID. rewrite validate_int_ok by assumption.
    cbn [validateSQLParam]. rewrite select_after_delete. reflexivity.
  - rewrite Run_no_dash by (repeat constructor; assumption).
    unfold cli.HandleAction, cli.updateNoteContentCommand.
    change (cli.First [itoa (ID note); content]) with (itoa (ID note)).
    change (cli.Get 1 [itoa (ID note); content]) with content.
    rewrite itoa_not_empty, Atoi_itoa by assumption.
    rewrite (valid_not_empty content Hcontent).
    change (cli.SetNoteContent (ID note) content t)
      with (SetNoteContent e (ID note) content t).
    unfold SetNoteContent, exec_update.
    rewrite validate_int_ok by assumption.
    rewrite validate_string_ok by assumption. cbn [validateSQLParam].
    destruct (Z.ltb_spec 0 (rows_with_id (ID note) t)); [|lia].
    destruct (Z.eqb_spec (rows_with_id (ID note) t) 0); [lia|]. reflexivity.
  - unfold GetNoteByID. rewrite validate_int_ok by assumption.
    cbn [validateSQLParam].
    rewrite (select_after_update e content (ID note) t note Hsel). reflexivity.
Qed.

Lemma delete_and_update_witness :
  cli.Run (H := main.sqliteStorage env100) itoa help_text cli.cmdDelete [itoa 1] one_note
  = cli.mkOutcome ("Deleted note with ID " +++ itoa 1 +++ cli.nl) None New.
Proof.
  assert (HC : ~ bad_length "C2")
    by (unfold bad_length, maxStringLength; vm_compute; intuition discriminate).
  assert (Hmax : ID (mkNote 1 "T" "C" 100 100) <= MaxInt32) by (vm_compute; discriminate).
  exact (proj1 (delete_and_update_by_printed_id itoa help_text env100 one_note
                  (mkNote 1 "T" "C" 100 100) "C2" one_note_reachable
                  (or_introl eq_refl) Hmax HC eq_refl)).
Defined.

(** ** Search at the bounds *)

Lemma rows_like_too_long pattern t :
  len pattern > SQLITE_MAX_LIKE_PATTERN_LENGTH -> rows_like pattern t = [].
Proof.
  intros Hlen. destruct t as [|r t]; [reflexivity|]. simpl. unfold like.
  destruct (Z.gtb_spec (len pattern) SQLITE_MAX_LIKE_PATTERN_LENGTH); [reflexivity|lia].
Qed.

(** X19: a keyword of 49999 to 256000 bytes passes [validateSQLParam]
    and finds nothing: its pattern is longer than LIKE accepts, the
    statement fails on the first row, and since [rows.Err()] is never
    read the search returns no note and no error, whatever is stored. *)
Theorem Search_with_overlong_keyword_finds_nothing (keyword : string) (t : table) :
  49999 <= len keyword <= maxStringLength ->
  SearchNotesByKeyword keyword t = Ok [].
Proof.
  intros Hlen. unfold SearchNotesByKeyword.
  rewrite validate_string_ok by (unfold bad_length; lia). cbn [validateSQLParam].
  rewrite rows_like_too_long; [reflexivity|].
  rewrite pattern_len. unfold SQLITE_MAX_LIKE_PATTERN_LENGTH. lia.
Qed.

Lemma Search_overlong_witness :
  SearchNotesByKeyword long_keyword [mkNote 1 "T" long_keyword 100 100] = Ok [].
Proof.
  apply Search_with_overlong_keyword_finds_nothing.
  unfold maxStringLength. vm_compute. split; discriminate.
Defined.

(** X20: a deleted note is not found again: after a [DeleteNote(id)] that
    succeeded, no search returns a note with that id, and a search
    returns nothing that it did not return before the deletion. *)
Theorem Search_after_DeleteNote (id deleted : Z) (keyword : string)
    (t t' : table) (notes : list Note) :
  DeleteNote id t = (Ok deleted, t') ->
  SearchNotesByKeyword keyword t' = Ok notes ->
  (forall note, In note notes -> ID note <> id)
  /\ (forall note, In note notes ->
        exists before, SearchNotesByKeyword keyword t = Ok before /\ In note before).
Proof.
  intros Hdel Hsearch. unfold DeleteNote in Hdel.
  destruct (validateSQLParam [IntParam id]); [discriminate|].
  destruct (rows_with_id id t =? 0); [discriminate|]. injection Hdel as _ <-.
  unfold SearchNotesByKeyword in *.
  destruct (validateSQLParam [StringParam keyword]); [discriminate|].
  cbv zeta in *. remember ("%" +++ keyword +++ "%") as pattern eqn:Hpattern.
  clear Hpattern. injection Hsearch as <-.
  assert (Hstored : forall note,
             In note (rows_like pattern (delete_by_id id t)) ->
             In note t /\ ID note <> id).
  { intros note Hin. apply rows_like_sound in Hin. destruct Hin as [Hin _].
    unfold delete_by_id in Hin. apply filter_In in Hin. destruct Hin as [Hin Hne].
    apply negb_true_iff, Z.eqb_neq in Hne. split; assumption. }
  split; [intros note Hin; apply (Hstored note Hin)|].
  intros note Hin. eexists. split; [reflexivity|].
  pose proof (rows_like_sound pattern _ note Hin) as [_ Hmatch].
  destruct (Hstored note Hin) as [Hint _]. clear Hin Hstored.
  assert (Hsome : forall text, like pattern text <> None).
  { intros text Hnone. unfold like in Hmatch, Hnone.
    destruct (len pattern >? SQLITE_MAX_LIKE_PATTERN_LENGTH).
    - destruct Hmatch as [Hm|Hm]; discriminate Hm.
    - discriminate Hnone. }
  induction t as [|r t IH]; [contradiction|]. simpl.
  destruct (like pattern (Title r)) as [a|] eqn:Ha; [|exfalso; apply (Hsome _ Ha)].
  destruct (like pattern (Content r)) as [b|] eqn:Hb; [|exfalso; apply (Hsome _ Hb)].
  destruct Hint as [->|Hint].
  - assert (Hab : a || b = true).
    { apply orb_true_iff. destruct Hmatch as [Hm|Hm].
      - left. congruence.
      - right. congruence. }
    rewrite Hab. left. reflexivity.
  - destruct (a || b); [right|]; apply IH; assumption.
Qed.

Lemma Search_after_DeleteNote_witness :
  ID note2 <> 1.
Proof.
  apply (proj1 (Search_after_DeleteNote 1 1 "Test" [note1; note2] [note2] [note2]
                  eq_refl eq_refl) note2).
  left. reflexivity.
Defined.
